(** * glados voice assistant: wake-word framing, detection gating and the
      session state machine

    A shallow embedding of [src/voice_assistant/wakeword.py] and
    [src/voice_assistant/assistant.py].

    - 16-bit PCM samples are integers ([Z]) in [-32768, 32767]; a byte chunk is
      a [list byte] decoded little-endian, as [np.frombuffer(.., dtype=int16)].
    - Classifier scores and the threshold are IEEE binary64 values
      ([PrimFloat.float]); [score >= threshold] is [threshold <=? score].
    - The openWakeWord model is an external collaborator: an interface
      ([Model.Classifier]) with a stateful [predict] and a [reset].
    - Exceptions and non-termination are explicit in the [outcome] type. *)

From Stdlib Require Import ZArith Lia Bool String Ascii Floats Arith.
From Stdlib.Strings Require Import Byte.
From Stdlib Require Import QArith Qround Lqa List.
Import ListNotations.

Set Implicit Arguments.
Set Warnings "-inexact-float,-abstract-large-number".
Local Open Scope nat_scope.
Local Open Scope list_scope.

(* ================================================================== *)
(** ** Python-level plumbing: exceptions, outcomes, string helpers *)

Inductive exn : Type :=
| ValueError (msg : string)
| AttributeError (msg : string)
| Exception (msg : string).

(** What a call does: return a value, raise, or (for a loop that is run on
    fuel) fail to finish within the fuel. *)
Inductive outcome (A : Type) : Type :=
| Returned (a : A)
| Raised (e : exn)
| OutOfFuel.

Arguments Returned {A} a.
Arguments Raised {A} e.
Arguments OutOfFuel {A}.

(** [s.split(sep)] for a one-character separator: at least one segment. *)
Fixpoint split_on (sep : ascii) (s : string) : list string :=
  match s with
  | EmptyString => [EmptyString]
  | String c r =>
      if Ascii.eqb c sep then EmptyString :: split_on sep r
      else match split_on sep r with
           | seg :: segs => String c seg :: segs
           | [] => [String c EmptyString]
           end
  end.

(** [s.replace(old, new)] for a non-empty [old]: leftmost non-overlapping
    occurrences; [skip] counts the characters of a match still to drop. *)
Fixpoint replace_from (old new : string) (skip : nat) (s : string) : string :=
  match s with
  | EmptyString => EmptyString
  | String c r =>
      match skip with
      | S k => replace_from old new k r
      | O =>
          if String.prefix old s
          then String.append new (replace_from old new (String.length old - 1) r)
          else String c (replace_from old new 0 r)
      end
  end.

Definition replace (old new s : string) : string := replace_from old new 0 s.

(** Python truthiness of [str | None]. *)
Definition truthy (s : option string) : bool :=
  match s with
  | Some (String _ _) => true
  | _ => false
  end.

(* ================================================================== *)
(** ** numpy: [np.frombuffer(chunk, dtype=np.int16)] *)

Definition int16_le (lo hi : byte) : Z :=
  let u := (Z.of_N (Byte.to_N lo) + 256 * Z.of_N (Byte.to_N hi))%Z in
  if (32768 <=? u)%Z then (u - 65536)%Z else u.

(** [None] is numpy's [ValueError]: the byte count is not a multiple of the
    2-byte element size. *)
Fixpoint frombuffer (b : list byte) : option (list Z) :=
  match b with
  | [] => Some []
  | [_] => None
  | lo :: hi :: rest => option_map (cons (int16_le lo hi)) (frombuffer rest)
  end.

Definition frombuffer_error : exn :=
  ValueError "buffer size must be a multiple of element size".

(* ================================================================== *)
(** ** openwakeword: the classifier interface *)

Module Model.

(** [openwakeword.model.Model]: [load] is the constructor
    [Model(wakeword_models=.., inference_framework=..)], [predict] scores
    one frame and advances the hidden state, [reset] clears it. *)
Class Classifier (M : Type) : Type := {
  load : list string -> string -> M;
  predict : M -> list Z -> M * list (string * float);
  reset : M -> M
}.

End Model.

(* ================================================================== *)
(** ** wakeword.py: [class WakeWordDetector] *)

Module WakeWordDetector.

Section Detector.

Context {M : Type} `{Model.Classifier M}.

Record t : Type := mk {
  model : M;
  _model_names : list string;
  threshold : float;
  _buffer : list Z;
  _chunk_samples : nat
}.

Definition set_buffer (self : t) (b : list Z) : t :=
  mk (model self) (_model_names self) (threshold self) b (_chunk_samples self).

Definition set_model (self : t) (m : M) : t :=
  mk m (_model_names self) (threshold self) (_buffer self) (_chunk_samples self).

(** [__init__] (lines 15-49); [download_models()] only touches the disk. *)
Definition __init__ (model_path : option string) (threshold : float)
    (inference_framework : string) : t :=
  match model_path with
  | Some (String c r as path) =>
      mk (Model.load [path] inference_framework)
         [replace ".onnx" EmptyString (last (split_on "/" path) EmptyString)]
         threshold [] 1280
  | _ =>
      mk (Model.load ["hey_jarvis"%string] inference_framework)
         ["hey_jarvis"%string]
         threshold [] 1280
  end.

(** [reset] (lines 82-85). *)
Definition reset (self : t) : t :=
  set_buffer (set_model self (Model.reset (model self))) [].

(** Lines 75-78, the scan of [prediction.items()]: the first label, in
    iteration order, whose score satisfies [score >= threshold]. *)
Fixpoint first_over (threshold : float) (items : list (string * float))
    : option string :=
  match items with
  | [] => None
  | (wake_word, score) :: rest =>
      if (threshold <=? score)%float then Some wake_word
      else first_over threshold rest
  end.

(** One [self.model.predict(chunk)] call: the frame and what came back. *)
Definition call : Type := (list Z * list (string * float))%type.

(** Lines 67-80, the [while] loop, together with the record of the
    [predict] calls it makes.  The loop test comes first; fuel is only
    spent on iterations, and an iteration shortens the buffer by the frame
    length, so the length of the buffer is fuel enough whenever the frame
    length is positive ([process_loop_scan] below). *)
Fixpoint process_loop (fuel : nat) (self : t)
    : t * list call * outcome (option string) :=
  if _chunk_samples self <=? length (_buffer self) then
    match fuel with
    | O => (self, [], OutOfFuel)
    | S fuel' =>
        let chunk := firstn (_chunk_samples self) (_buffer self) in
        let self1 := set_buffer self (skipn (_chunk_samples self) (_buffer self)) in
        let (m', prediction) := Model.predict (model self1) chunk in
        let self2 := set_model self1 m' in
        match first_over (threshold self2) prediction with
        | Some wake_word =>
            (reset self2, [(chunk, prediction)], Returned (Some wake_word))
        | None =>
            let '(self3, calls, r) := process_loop fuel' self2 in
            (self3, (chunk, prediction) :: calls, r)
        end
    end
  else (self, [], Returned None).

(** [process_audio] (lines 51-80).  A failing [np.frombuffer] raises before
    anything is assigned. *)
Definition process_audio (self : t) (audio_chunk : list byte)
    : t * list call * outcome (option string) :=
  match frombuffer audio_chunk with
  | None => (self, [], Raised frombuffer_error)
  | Some audio_array =>
      let self1 := set_buffer self (_buffer self ++ audio_array) in
      process_loop (length (_buffer self1)) self1
  end.

(** [model_names] (lines 87-90). *)
Definition model_names (self : t) : list string := _model_names self.

(** Pushing a sequence of chunks, one [process_audio] call each, whatever
    each call returns. *)
Fixpoint process_all (self : t) (chunks : list (list byte))
    : t * list call * list (outcome (option string)) :=
  match chunks with
  | [] => (self, [], [])
  | c :: rest =>
      let '(self1, calls1, r) := process_audio self c in
      let '(self2, calls2, rs) := process_all self1 rest in
      (self2, calls1 ++ calls2, r :: rs)
  end.

(** The classifier state after scoring the given frames in order. *)
Fixpoint model_after (m : M) (frames : list (list Z)) : M :=
  match frames with
  | [] => m
  | f :: rest => model_after (fst (Model.predict m f)) rest
  end.

(** The calls the classifier answers when given the frames in order. *)
Fixpoint calls_of (m : M) (frames : list (list Z)) : list call :=
  match frames with
  | [] => []
  | f :: rest =>
      (f, snd (Model.predict m f)) :: calls_of (fst (Model.predict m f)) rest
  end.

(** Wake Detector, in the specification's words: for each full frame, in
    order, invoke the classifier; the first frame with a score at or over
    the threshold ends the pass with its label, and no later frame is
    processed; otherwise every frame is processed and there is no
    detection. *)
Fixpoint spec_scan (th : float) (m : M) (frames : list (list Z))
    : M * list call * option string :=
  match frames with
  | [] => (m, [], None)
  | f :: rest =>
      let (m', prediction) := Model.predict m f in
      match first_over th prediction with
      | Some wake_word => (m', [(f, prediction)], Some wake_word)
      | None =>
          let '(m'', calls, r) := spec_scan th m' rest in
          (m'', (f, prediction) :: calls, r)
      end
  end.

(** *** The framing the specification describes

    Frame Buffer, in the specification's words: a sequence of [N] samples
    yields the [N / frameLength] full frames, in order, and [N mod
    frameLength] samples stay pending. *)
Definition spec_frames (n : nat) (samples : list Z) : list (list Z) :=
  map (fun i => firstn n (skipn (i * n) samples)) (seq 0 (length samples / n)).

Definition spec_pending (n : nat) (samples : list Z) : list Z :=
  skipn (n * (length samples / n)) samples.

(** A call that found no score at or over the threshold. *)
Definition quiet (th : float) (c : call) : Prop := first_over th (snd c) = None.

End Detector.

Arguments t M : clear implicits.

End WakeWordDetector.

(* ================================================================== *)
(** ** A scripted classifier

    A test double for the external model: it answers the next prediction of
    a fixed script on every [predict] (and nothing once the script is used
    up), and remembers the frames it has seen since the last [reset]. *)

Module Scripted.

Record state : Type := mk {
  script : list (list (string * float));
  seen : list (list Z)
}.

Definition fresh (s : list (list (string * float))) : state := mk s [].

Definition predict (m : state) (frame : list Z) : state * list (string * float) :=
  match script m with
  | [] => (mk [] (seen m ++ [frame]), [])
  | p :: rest => (mk rest (seen m ++ [frame]), p)
  end.

Definition reset (m : state) : state := mk (script m) [].

Definition classifier (s : list (list (string * float))) : Model.Classifier state :=
  {| Model.load := fun _ _ => fresh s;
     Model.predict := predict;
     Model.reset := reset |}.

End Scripted.

(** A classifier that answers the same prediction to every frame and only
    counts the frames since the last [reset]. *)

Module Constant.

Definition predict (answer : list (string * float)) (m : nat) (frame : list Z)
    : nat * list (string * float) := (S m, answer).

Definition classifier (answer : list (string * float)) : Model.Classifier nat :=
  {| Model.load := fun _ _ => 0;
     Model.predict := predict answer;
     Model.reset := fun _ => 0 |}.

End Constant.

(* ================================================================== *)
(** ** config.py *)

Module Config.

Record AudioConfig : Type := mkAudio {
  send_sample_rate : Z;
  receive_sample_rate : Z;
  playback_sample_rate : Z;
  chunk_size : Z;
  channels : Z;
  format_width : Z;
  input_device_index : option Z;
  output_device_index : option Z
}.

Definition AudioConfig_default : AudioConfig :=
  mkAudio 16000 24000 16000 1024 1 2 (Some 1%Z) (Some 1%Z).

Record GeminiConfig : Type := mkGemini {
  model : string;
  system_instruction : string
}.

Definition GeminiConfig_default : GeminiConfig :=
  mkGemini "gemini-2.5-flash-native-audio-preview-12-2025"
           "You are a helpful, friendly voice assistant.".

(** [timeout] is a number of seconds; clock readings and durations are
    rationals (see [VoiceAssistant]). *)
Record WakeWordConfig : Type := mkWakeWord {
  enabled : bool;
  model_path : option string;
  threshold : float;
  timeout : Q;
  inference_framework : string
}.

Definition WakeWordConfig_default : WakeWordConfig :=
  mkWakeWord true None 0.5%float 30%Q "onnx".

End Config.

(* ================================================================== *)
(** ** audio.py *)

Module Audio.

(** Modelled from the spec: [audio.py] ([AudioCapture], [AudioPlayer]) is
    not among the sources.  The specification gives the microphone stream
    [start()] and [stop()], and the speaker output [start()], [stop()] and
    a synchronous play operation; none of them is said to fail.  A device
    is held ([true]) between [start()] and [stop()]. *)
Record AudioCapture : Type := mkCapture {
  capture_started : bool
}.

Record AudioPlayer : Type := mkPlayer {
  player_started : bool;
  played : list (list byte)
}.

Definition capture_new : AudioCapture := mkCapture false.
Definition capture_start (c : AudioCapture) : AudioCapture := mkCapture true.
Definition capture_stop (c : AudioCapture) : AudioCapture := mkCapture false.

Definition player_new : AudioPlayer := mkPlayer false [].
Definition player_start (p : AudioPlayer) : AudioPlayer := mkPlayer true (played p).
Definition player_stop (p : AudioPlayer) : AudioPlayer := mkPlayer false (played p).
Definition play_sync (p : AudioPlayer) (data : list byte) : AudioPlayer :=
  mkPlayer (player_started p) (played p ++ [data]).

End Audio.

(* ================================================================== *)
(** ** google.genai: the messages of a live session *)

Module Live.

Record Part : Type := mkPart { inline_data : option (list byte) }.

Record ServerContent : Type := mkContent {
  model_turn : option (list Part);
  turn_complete : bool
}.

Record Response : Type := mkResponse { server_content : option ServerContent }.

End Live.

(* ================================================================== *)
(** ** assistant.py: [class VoiceAssistant]

    The coroutines of [assistant.py] run on one asyncio event loop, so the
    code between two [await]s runs atomically.  Each coroutine is embedded as
    a program counter (the [await] it is suspended at) and a function that
    runs it from one [await] to the next; [step] is the event loop resuming
    one of them.  [time.monotonic()] readings arrive with the event that
    resumes the code reading the clock.  Readings and the timeout are
    rationals: every finite binary64 value is one; the subtraction in
    [_check_timeout] is taken exact.  The exceptions of the model are the
    ones [except Exception] catches; [KeyboardInterrupt] and the
    cancellation of a task are outside it. *)

Module VoiceAssistant.

Inductive AssistantState : Type :=
| LISTENING    (* Waiting for wake word *)
| ACTIVATED    (* Wake word detected, connected to Gemini *)
| RESPONDING.  (* Gemini is generating a response *)

Definition state_eqb (a b : AssistantState) : bool :=
  match a, b with
  | LISTENING, LISTENING | ACTIVATED, ACTIVATED | RESPONDING, RESPONDING => true
  | _, _ => false
  end.

(** The lines the assistant prints, one constructor per [print] call. *)
Inductive printed : Type :=
| P_starting_wake            (* line 167 *)
| P_wake_model (names : list string)
| P_threshold (th : float)
| P_timeout (seconds : Q)
| P_starting_no_wake         (* line 172 *)
| P_model (name : string)
| P_press_ctrl_c
| P_receive_error (e : exn)  (* line 96 *)
| P_timeout_fired            (* line 106 *)
| P_listening                (* line 119 *)
| P_detected (wake_word : string)
| P_connected                (* line 150 *)
| P_session_error (e : exn)  (* line 160 *)
| P_error (e : exn)          (* line 196 *)
| P_shutting_down.           (* line 204 *)

(** Where a task created by [_run_session] is suspended. *)
Inductive task : Type :=
| SendWaitChunk              (* [_send_audio]: awaiting the next microphone chunk *)
| SendWaitSend               (* [_send_audio]: awaiting [session.send] *)
| SendFinished
| SendRaised (e : exn)       (* [_send_audio] ended with an exception *)
| RecvNew                    (* [_receive_audio]: created, not yet run *)
| RecvWait                   (* [_receive_audio]: awaiting the next response *)
| RecvFinished
| WdNew                      (* [_check_timeout]: created, not yet run *)
| WdSleep                    (* [_check_timeout]: in [asyncio.sleep(1.0)] *)
| WdFinished.

(** What resumes a task. *)
Inductive task_event : Type :=
| TaskStart
| MicChunk (chunk : list byte)
| MicEnd
| MicError (e : exn)
| SendOk (now : Q)
| SendError (e : exn)
| ServerMsg (response : Live.Response) (now : Q)
| ReceiveEnd
| ReceiveError (e : exn)
| Tick (now : Q).

(** Where the coroutine [run] is suspended. *)
Inductive main_pc : Type :=
| MainIdle                       (* [run] not called yet *)
| MainWake                       (* [_listen_for_wakeword]: awaiting a chunk *)
| MainConnect                    (* [_run_session]: awaiting [connect] *)
| MainGather                     (* [_run_session]: awaiting [gather] *)
| MainClosing (err : option exn) (* [_run_session]: leaving [async with] *)
| MainDone                       (* [run] returned *)
| MainRaised (e : exn)           (* [run] raised *)
| MainDiverged.                  (* [process_audio] does not return *)

(** What the event loop, the microphone, the remote service or a caller of
    [shutdown] does next. *)
Inductive event : Type :=
| ERun (now : Q)
| EWakeChunk (chunk : list byte) (now : Q)
| EWakeEnd
| EWakeError (e : exn)
| EConnected
| EConnectError (e : exn) (now : Q)
| EGather
| EClosed (close_err : option exn) (now : Q)
| ETask (zombie : bool) (i : nat) (ev : task_event)
| EShutdown.

Definition task_finished (k : task) : bool :=
  match k with
  | SendFinished | RecvFinished | WdFinished => true
  | _ => false
  end.

Definition task_exception (k : task) : option exn :=
  match k with
  | SendRaised e => Some e
  | _ => None
  end.

Definition task_pending (k : task) : bool :=
  match k with
  | SendFinished | RecvFinished | WdFinished | SendRaised _ => false
  | _ => true
  end.

Fixpoint first_exception (ks : list task) : option exn :=
  match ks with
  | [] => None
  | k :: rest =>
      match task_exception k with
      | Some e => Some e
      | None => first_exception rest
      end
  end.

Fixpoint update_nth {A : Type} (i : nat) (x : A) (l : list A) : list A :=
  match l, i with
  | [], _ => []
  | _ :: rest, O => x :: rest
  | y :: rest, S j => y :: update_nth j x rest
  end.

Section Assistant.

Context {M : Type} `{Model.Classifier M}.

Record t : Type := mk {
  audio_config : Config.AudioConfig;
  gemini_config : Config.GeminiConfig;
  wakeword_config : Config.WakeWordConfig;
  _capture : Audio.AudioCapture;
  _player : Audio.AudioPlayer;
  _running : bool;
  _state : AssistantState;
  _last_activity_time : Q;
  _wakeword_detector : option (WakeWordDetector.t M);
  stdout : list printed
}.

Definition set_capture (self : t) (c : Audio.AudioCapture) : t :=
  mk (audio_config self) (gemini_config self) (wakeword_config self) c
     (_player self) (_running self) (_state self) (_last_activity_time self)
     (_wakeword_detector self) (stdout self).

Definition set_player (self : t) (p : Audio.AudioPlayer) : t :=
  mk (audio_config self) (gemini_config self) (wakeword_config self)
     (_capture self) p (_running self) (_state self)
     (_last_activity_time self) (_wakeword_detector self) (stdout self).

Definition set_running (self : t) (b : bool) : t :=
  mk (audio_config self) (gemini_config self) (wakeword_config self)
     (_capture self) (_player self) b (_state self)
     (_last_activity_time self) (_wakeword_detector self) (stdout self).

Definition set_state (self : t) (s : AssistantState) : t :=
  mk (audio_config self) (gemini_config self) (wakeword_config self)
     (_capture self) (_player self) (_running self) s
     (_last_activity_time self) (_wakeword_detector self) (stdout self).

Definition set_last_activity_time (self : t) (now : Q) : t :=
  mk (audio_config self) (gemini_config self) (wakeword_config self)
     (_capture self) (_player self) (_running self) (_state self) now
     (_wakeword_detector self) (stdout self).

Definition set_detector (self : t) (d : option (WakeWordDetector.t M)) : t :=
  mk (audio_config self) (gemini_config self) (wakeword_config self)
     (_capture self) (_player self) (_running self) (_state self)
     (_last_activity_time self) d (stdout self).

Definition print (line : printed) (self : t) : t :=
  mk (audio_config self) (gemini_config self) (wakeword_config self)
     (_capture self) (_player self) (_running self) (_state self)
     (_last_activity_time self) (_wakeword_detector self)
     (stdout self ++ [line]).

Definition or_default {A : Type} (x : option A) (d : A) : A :=
  match x with
  | Some v => v
  | None => d
  end.

(** [__init__] (lines 26-55); [GEMINI_API_KEY] is what [os.getenv] finds. *)
Definition __init__ (GEMINI_API_KEY : option string)
    (audio_config : option Config.AudioConfig)
    (gemini_config : option Config.GeminiConfig)
    (wakeword_config : option Config.WakeWordConfig) : outcome t :=
  let ac := or_default audio_config Config.AudioConfig_default in
  let gc := or_default gemini_config Config.GeminiConfig_default in
  let wc := or_default wakeword_config Config.WakeWordConfig_default in
  if negb (truthy GEMINI_API_KEY) then
    Raised (ValueError "GEMINI_API_KEY environment variable not set")
  else
    Returned
      (mk ac gc wc Audio.capture_new Audio.player_new false LISTENING 0%Q
          (if Config.enabled wc
           then Some (WakeWordDetector.__init__ (Config.model_path wc)
                        (Config.threshold wc) (Config.inference_framework wc))
           else None)
          []).

(** [self._running and self._state != AssistantState.LISTENING]
    (lines 76, 101). *)
Definition session_live (self : t) : bool :=
  _running self && negb (state_eqb (_state self) LISTENING).

(** [not self._running or self._state == AssistantState.LISTENING]
    (lines 60, 79). *)
Definition stop_seen (self : t) : bool :=
  negb (_running self) || state_eqb (_state self) LISTENING.

(** [_send_audio] (lines 57-72), from one [await] to the next. *)
Definition _send_audio (self : t) (pc : task) (ev : task_event)
    : option (t * task) :=
  match pc, ev with
  | SendWaitChunk, MicChunk chunk =>
      if stop_seen self then Some (self, SendFinished)
      else Some (self, SendWaitSend)
  | SendWaitChunk, MicEnd => Some (self, SendFinished)
  | SendWaitChunk, MicError e => Some (self, SendRaised e)
  | SendWaitSend, SendOk now =>
      Some (set_last_activity_time self now, SendWaitChunk)
  | SendWaitSend, SendError e => Some (self, SendRaised e)
  | _, _ => None
  end.

(** Lines 86-88. *)
Fixpoint play_parts (p : Audio.AudioPlayer) (parts : list Live.Part)
    : Audio.AudioPlayer :=
  match parts with
  | [] => p
  | part :: rest =>
      match Live.inline_data part with
      | Some data => play_parts (Audio.play_sync p data) rest
      | None => play_parts p rest
      end
  end.

(** Lines 82-92: one response handled. *)
Definition on_response (self : t) (response : Live.Response) (now : Q) : t :=
  match Live.server_content response with
  | Some server_content =>
      let self1 :=
        match Live.model_turn server_content with
        | Some parts =>
            let self' := set_state self RESPONDING in
            set_player self' (play_parts (_player self') parts)
        | None => self
        end in
      if Live.turn_complete server_content
      then set_last_activity_time (set_state self1 ACTIVATED) now
      else self1
  | None => self
  end.

(** [_receive_audio] (lines 74-97), from one [await] to the next. *)
Definition _receive_audio (self : t) (pc : task) (ev : task_event)
    : option (t * task) :=
  match pc, ev with
  | RecvNew, TaskStart =>
      Some (self, if session_live self then RecvWait else RecvFinished)
  | RecvWait, ServerMsg response now =>
      if stop_seen self then Some (self, RecvFinished)
      else Some (on_response self response now, RecvWait)
  | RecvWait, ReceiveEnd =>
      Some (self, if session_live self then RecvWait else RecvFinished)
  | RecvWait, ReceiveError e =>
      Some (if _running self then print (P_receive_error e) self else self,
            RecvFinished)
  | _, _ => None
  end.

(** [_check_timeout] (lines 99-108), from one [await] to the next. *)
Definition _check_timeout (self : t) (pc : task) (ev : task_event)
    : option (t * task) :=
  match pc, ev with
  | WdNew, TaskStart =>
      Some (self, if session_live self then WdSleep else WdFinished)
  | WdSleep, Tick now =>
      if state_eqb (_state self) ACTIVATED then
        let elapsed := (now - _last_activity_time self)%Q in
        if Qle_bool (Config.timeout (wakeword_config self)) elapsed then
          Some (set_state (print P_timeout_fired self) LISTENING, WdFinished)
        else
          Some (self, if session_live self then WdSleep else WdFinished)
      else
        Some (self, if session_live self then WdSleep else WdFinished)
  | _, _ => None
  end.

Definition task_step (self : t) (pc : task) (ev : task_event)
    : option (t * task) :=
  match pc with
  | SendWaitChunk | SendWaitSend => _send_audio self pc ev
  | RecvNew | RecvWait => _receive_audio self pc ev
  | WdNew | WdSleep => _check_timeout self pc ev
  | SendFinished | SendRaised _ | RecvFinished | WdFinished => None
  end.

(** [shutdown] (lines 200-208). *)
Definition shutdown (self : t) : t :=
  if negb (_running self) then self
  else
    let self1 := print P_shutting_down self in
    let self2 := set_running self1 false in
    let self3 := set_state self2 LISTENING in
    let self4 := set_capture self3 (Audio.capture_stop (_capture self3)) in
    set_player self4 (Audio.player_stop (_player self4)).

(** [_run_session], lines 135-146: up to the [await] of [connect]. *)
Definition _run_session_enter (self : t) (now : Q) : t * main_pc :=
  (set_last_activity_time (set_state self ACTIVATED) now, MainConnect).

(** [_run_session], lines 159-162: what follows the [try] block; [err] is
    the exception that left it, if any. *)
Definition _run_session_leave (self : t) (err : option exn) : t :=
  let self1 :=
    match err with
    | Some e => print (P_session_error e) self
    | None => self
    end in
  set_state self1 LISTENING.

(** [run], lines 197-198, reached by [break] or by the loop test. *)
Definition run_finally (self : t) : t * main_pc := (shutdown self, MainDone).

(** [run], lines 195-198: an exception caught in the loop. *)
Definition run_except (self : t) (e : exn) : t * main_pc :=
  run_finally (print (P_error e) self).

(** [_listen_for_wakeword], lines 116-122: up to the first [await]; [None]
    is the [return True] of line 117. *)
Definition _listen_for_wakeword_enter (self : t) : option t :=
  match _wakeword_detector self with
  | None => None
  | Some d =>
      Some (set_detector (print P_listening self)
                         (Some (WakeWordDetector.reset d)))
  end.

(** [run], lines 181-189: from the loop test to the first [await]. *)
Definition run_loop (self : t) (now : Q) : t * main_pc :=
  if _running self then
    if Config.enabled (wakeword_config self) then
      match _listen_for_wakeword_enter self with
      | None => _run_session_enter self now
      | Some self' => (self', MainWake)
      end
    else _run_session_enter self now
  else run_finally self.

(** [run], lines 191-193 and back to the loop test. *)
Definition run_after_session (self : t) (now : Q) : t * main_pc :=
  if negb (Config.enabled (wakeword_config self)) then run_finally self
  else run_loop self now.

(** [run], lines 166-181: from the call to the first [await]. *)
Definition run_enter (self : t) (now : Q) : t * main_pc :=
  let banner :=
    if Config.enabled (wakeword_config self) then
      match _wakeword_detector self with
      | None =>
          Raised (AttributeError
                    "'NoneType' object has no attribute 'model_names'")
      | Some d =>
          Returned
            (print (P_timeout (Config.timeout (wakeword_config self)))
               (print (P_threshold (Config.threshold (wakeword_config self)))
                  (print (P_wake_model (WakeWordDetector.model_names d))
                     (print P_starting_wake self))))
      end
    else Returned (print P_starting_no_wake self) in
  match banner with
  | Returned self1 =>
      let self2 := print P_press_ctrl_c
                     (print (P_model (Config.model (gemini_config self1))) self1) in
      let self3 := set_running self2 true in
      let self4 := set_capture self3 (Audio.capture_start (_capture self3)) in
      let self5 := set_player self4 (Audio.player_start (_player self4)) in
      run_loop self5 now
  | Raised e => (print P_starting_wake self, MainRaised e)
  | OutOfFuel => (self, MainDiverged)
  end.

(** [_listen_for_wakeword], lines 122-131, resumed with a chunk. *)
Definition _listen_for_wakeword_chunk (self : t) (chunk : list byte) (now : Q) : t * main_pc :=
  if negb (_running self) then run_finally self
  else
    match _wakeword_detector self with
    | None =>
        run_except self
          (AttributeError "'NoneType' object has no attribute 'process_audio'")
    | Some d =>
        let '(d', _, r) := WakeWordDetector.process_audio d chunk in
        let self1 := set_detector self (Some d') in
        match r with
        | Returned detected =>
            if truthy detected then
              match detected with
              | Some wake_word => _run_session_enter (print (P_detected wake_word) self1) now
              | None => (self1, MainWake)
              end
            else (self1, MainWake)
        | Raised e => run_except self1 e
        | OutOfFuel => (self1, MainDiverged)
        end
    end.

(** The whole program: the assistant object, the coroutine [run], the three
    tasks of the session in progress (send, receive, timeout), and the
    tasks that a session which ended on an exception left running
    ([gather] does not cancel them). *)
Record system : Type := mkSystem {
  va : t;
  main : main_pc;
  current : list task;
  zombies : list task
}.

Definition boot (self : t) : system := mkSystem self MainIdle [] [].

Definition resume_task (s : system) (zombie : bool) (i : nat) (ev : task_event)
    : option system :=
  let pool := if zombie then zombies s else current s in
  match nth_error pool i with
  | None => None
  | Some pc =>
      match task_step (va s) pc ev with
      | None => None
      | Some (self', pc') =>
          Some (if zombie
                then mkSystem self' (main s) (current s) (update_nth i pc' pool)
                else mkSystem self' (main s) (update_nth i pc' pool) (zombies s))
      end
  end.

Definition step (s : system) (ev : event) : option system :=
  match ev, main s with
  | ERun now, MainIdle =>
      let (self', pc) := run_enter (va s) now in
      Some (mkSystem self' pc (current s) (zombies s))
  | EWakeChunk chunk now, MainWake =>
      let (self', pc) := _listen_for_wakeword_chunk (va s) chunk now in
      Some (mkSystem self' pc (current s) (zombies s))
  | EWakeEnd, MainWake =>
      let (self', pc) := run_finally (va s) in
      Some (mkSystem self' pc (current s) (zombies s))
  | EWakeError e, MainWake =>
      let (self', pc) := run_except (va s) e in
      Some (mkSystem self' pc (current s) (zombies s))
  | EConnected, MainConnect =>
      Some (mkSystem (print P_connected (va s)) MainGather
                     [SendWaitChunk; RecvNew; WdNew] (zombies s))
  | EConnectError e now, MainConnect =>
      let (self', pc) := run_after_session (_run_session_leave (va s) (Some e)) now in
      Some (mkSystem self' pc (current s) (zombies s))
  | EGather, MainGather =>
      match first_exception (current s) with
      | Some e => Some (mkSystem (va s) (MainClosing (Some e)) (current s) (zombies s))
      | None =>
          if forallb task_finished (current s)
          then Some (mkSystem (va s) (MainClosing None) (current s) (zombies s))
          else None
      end
  | EClosed close_err now, MainClosing err =>
      let e := match close_err with Some e' => Some e' | None => err end in
      let (self', pc) := run_after_session (_run_session_leave (va s) e) now in
      Some (mkSystem self' pc [] (zombies s ++ filter task_pending (current s)))
  | ETask zombie i tev, _ => resume_task s zombie i tev
  | EShutdown, _ => Some (mkSystem (shutdown (va s)) (main s) (current s) (zombies s))
  | _, _ => None
  end.

Fixpoint steps (s : system) (evs : list event) : option system :=
  match evs with
  | [] => Some s
  | ev :: rest =>
      match step s ev with
      | Some s' => steps s' rest
      | None => None
      end
  end.

(** States the program can be in: an assistant built by [__init__], then any
    events. *)
Definition reachable (s : system) : Prop :=
  exists key ac gc wc self evs,
    __init__ key ac gc wc = Returned self /\ steps (boot self) evs = Some s.

(** One task run through several resumptions. *)
Fixpoint task_steps (self : t) (pc : task) (evs : list task_event)
    : option (t * task) :=
  match evs with
  | [] => Some (self, pc)
  | ev :: rest =>
      match task_step self pc ev with
      | Some (self', pc') => task_steps self' pc' rest
      | None => None
      end
  end.

(** The wake-ups of a watchdog that went to sleep at [t0] and whose every
    [asyncio.sleep(1.0)] lasts the second it asks for. *)
Fixpoint polls (t0 : Q) (k : nat) : list task_event :=
  match k with
  | O => []
  | S k' => Tick (t0 + 1) :: polls (t0 + 1) k'
  end.

(** *** What makes the state change

    The code paths that assign [_state], as conditions on the state of the
    program and the event being resumed. *)

(** Line 135, reached through lines 126-129 and 184-189: [process_audio]
    returned a non-empty label. *)
Definition wake_detected (s : system) (ev : event) : Prop :=
  exists chunk now d w,
    ev = EWakeChunk chunk now /\ main s = MainWake /\
    _running (va s) = true /\
    _wakeword_detector (va s) = Some d /\
    snd (WakeWordDetector.process_audio d chunk) = Returned (Some w) /\
    w <> EmptyString.

(** Line 135, reached through lines 182 and 189 with detection disabled. *)
Definition wake_disabled (s : system) (ev : event) : Prop :=
  exists now,
    ev = ERun now /\ main s = MainIdle /\
    Config.enabled (wakeword_config (va s)) = false.

(** Lines 103-108: a timeout task wakes up, the state is [ACTIVATED] and the
    time since the last activity has reached the timeout. *)
Definition watchdog_timeout (s : system) (ev : event) : Prop :=
  exists zombie i now,
    ev = ETask zombie i (Tick now) /\
    nth_error (if zombie then zombies s else current s) i = Some WdSleep /\
    _state (va s) = ACTIVATED /\
    (Config.timeout (wakeword_config (va s))
       <= now - _last_activity_time (va s))%Q.

(** Lines 205-206: [shutdown] called while running. *)
Definition explicit_shutdown (s : system) (ev : event) : Prop :=
  ev = EShutdown /\ _running (va s) = true.

(** Lines 159-162: an exception left the [try] block of [_run_session]. *)
Definition session_error (s : system) (ev : event) : Prop :=
  (exists e now, ev = EConnectError e now /\ main s = MainConnect) \/
  (exists close_err err now,
     ev = EClosed close_err now /\ main s = MainClosing err /\
     (close_err <> None \/ err <> None)).

(** Lines 85 and 91: a receive task handles a response. *)
Definition server_message (s : system) (ev : event) : Prop :=
  exists zombie i response now,
    ev = ETask zombie i (ServerMsg response now) /\
    nth_error (if zombie then zombies s else current s) i = Some RecvWait /\
    _running (va s) = true.

(** After [_run_session] caught [e]: the error is printed, the state is
    [LISTENING], and [run] is back at wake listening if detection is enabled
    and the assistant still runs, and has returned otherwise. *)
Definition recovered (s s' : system) (e : exn) : Prop :=
  (exists more, stdout (va s') = stdout (va s) ++ P_session_error e :: more) /\
  _state (va s') = LISTENING /\
  main s' = (if Config.enabled (wakeword_config (va s)) && _running (va s)
             then MainWake else MainDone).

(** Which coroutine a task runs. *)
Inductive kind : Type := KSend | KReceive | KTimeout.

Definition task_kind (k : task) : kind :=
  match k with
  | SendWaitChunk | SendWaitSend | SendFinished | SendRaised _ => KSend
  | RecvNew | RecvWait | RecvFinished => KReceive
  | WdNew | WdSleep | WdFinished => KTimeout
  end.

(** What holds of the assistant object at all times: a stopped assistant is
    [LISTENING] and holds no audio device, and the detector exists exactly
    when detection is enabled, with the frame length of [__init__]. *)
Definition well_formed (self : t) : Prop :=
  (_running self = false ->
     _state self = LISTENING /\
     Audio.capture_started (_capture self) = false /\
     Audio.player_started (_player self) = false) /\
  (if Config.enabled (wakeword_config self)
   then exists d, _wakeword_detector self = Some d /\
                  WakeWordDetector._chunk_samples d = 1280
   else _wakeword_detector self = None).

(** What holds in every state the program can be in: by where [run] is
    suspended, the state outside a session is [LISTENING], as it is in a
    session once its timeout task has finished. *)
Definition invariant (s : system) : Prop :=
  well_formed (va s) /\
  match main s with
  | MainIdle | MainWake | MainDone => _state (va s) = LISTENING
  | MainConnect => True
  | MainGather =>
      map task_kind (current s) = [KSend; KReceive; KTimeout] /\
      (nth_error (current s) 2 = Some WdFinished -> _state (va s) = LISTENING)
  | MainClosing err => err = None -> _state (va s) = LISTENING
  | MainRaised _ | MainDiverged => False
  end.

(** Where the code of [run] may leave the assistant when it suspends. *)
Definition suspended (r : t * main_pc) : Prop :=
  well_formed (fst r) /\
  match snd r with
  | MainWake | MainDone => _state (fst r) = LISTENING
  | MainConnect => True
  | _ => False
  end.

(** The program after the given events, for examples. *)
Definition after (self : t) (evs : list event) : system :=
  match steps (boot self) evs with
  | Some s => s
  | None => boot self
  end.

End Assistant.

Arguments t M : clear implicits.
Arguments system M : clear implicits.

End VoiceAssistant.

(* ================================================================== *)
(** ** Concrete detectors *)

Module Examples.

Import WakeWordDetector.

(** A classifier that answers 0.1 to every frame, and one that answers the
    scripted scores 0.1, 0.6, 0.9 for the label hey-x. *)
Definition calm_classifier : Model.Classifier nat :=
  Constant.classifier [("hey_jarvis"%string, 0.1%float)].

Definition hey_x_classifier : Model.Classifier Scripted.state :=
  Scripted.classifier [[("hey-x"%string, 0.1%float)];
                       [("hey-x"%string, 0.6%float)];
                       [("hey-x"%string, 0.9%float)]].

Definition calm : t nat :=
  @__init__ nat calm_classifier None 0.5%float "onnx".

Definition scripted_hey_x : t Scripted.state :=
  @__init__ Scripted.state hey_x_classifier None 0.5%float "onnx".

Definition silence (bytes : nat) : list byte := repeat x00 bytes.

End Examples.

(* ================================================================== *)
(** ** Concrete assistants *)

Module AssistantExamples.

Import VoiceAssistant Examples.

(** The assistant [__init__] builds from the default configuration, on the
    classifier scripted with 0.1, 0.6, 0.9. *)
Definition hey_x_assistant : t Scripted.state :=
  mk Config.AudioConfig_default Config.GeminiConfig_default
     Config.WakeWordConfig_default Audio.capture_new Audio.player_new
     false LISTENING 0%Q (Some scripted_hey_x) [].

(** Wake detection disabled, timeout 30 s. *)
Definition no_wake : Config.WakeWordConfig :=
  Config.mkWakeWord false None 0.5%float 30%Q "onnx".

Definition plain_assistant : t nat :=
  mk Config.AudioConfig_default Config.GeminiConfig_default no_wake
     Audio.capture_new Audio.player_new false LISTENING 0%Q None [].

(** A server message carrying audio, without turn completion. *)
Definition audio_message : Live.Response :=
  Live.mkResponse
    (Some (Live.mkContent (Some [Live.mkPart (Some [x01; x02])]) false)).

(** Detection on the second frame, a session, a first piece of the reply,
    then the receive stream fails; the microphone is still forwarded, and the
    watchdog polls every second from 3 s to 40 s, past the 30 s timeout. *)
Definition receive_failure : list event :=
  [ERun 0%Q;
   EWakeChunk (silence 5120) 1%Q;
   EConnected;
   ETask false 1 TaskStart;
   ETask false 2 TaskStart;
   ETask false 1 (ServerMsg audio_message 2%Q);
   ETask false 1 (ReceiveError (Exception "connection lost"));
   ETask false 0 (MicChunk (silence 2048));
   ETask false 0 (SendOk (5 # 2))]
  ++ map (fun n => ETask false 2 (Tick (inject_Z (Z.of_nat n)))) (seq 3 38).

(** The receive stream fails after [shutdown] has been called. *)
Definition receive_failure_after_shutdown : list event :=
  [ERun 0%Q;
   EWakeChunk (silence 5120) 1%Q;
   EConnected;
   ETask false 1 TaskStart;
   EShutdown;
   ETask false 1 (ReceiveError (Exception "connection lost"))].

End AssistantExamples.

(* ================================================================== *)
(** ** Notions for the further properties *)

(** Whether a character occurs in a string. *)
Fixpoint occurs (c : ascii) (s : string) : bool :=
  match s with
  | EmptyString => false
  | String c' r => Ascii.eqb c' c || occurs c r
  end.

(** A binary64 value that is not equal to itself: a NaN. *)
Definition is_nan (x : float) : bool := negb (x =? x)%float.

Module Session.

Section Session.

Import VoiceAssistant.
Context {M : Type} `{Model.Classifier M}.

(** The audio payloads of the parts of a model turn, in order: what the
    loop of lines 86-88 hands to [play_sync]. *)
Definition inline_audio (parts : list Live.Part) : list (list byte) :=
  flat_map (fun part => match Live.inline_data part with
                        | Some data => [data]
                        | None => []
                        end) parts.

Definition response_audio (response : Live.Response) : list (list byte) :=
  match Live.server_content response with
  | Some server_content =>
      match Live.model_turn server_content with
      | Some parts => inline_audio parts
      | None => []
      end
  | None => []
  end.

(** The receive task resumed with the given responses, one after the
    other. *)
Definition arrivals (messages : list (Live.Response * Q)) : list task_event :=
  map (fun m => ServerMsg (fst m) (snd m)) messages.

(** One round of a session in which the microphone is forwarded: the send
    task gets a chunk, its [session.send] completes at [stamp], and the
    timeout task wakes up at [now].  The tasks are those [EConnected] creates:
    send first, timeout third. *)
Definition forwarding_round (round : list byte * Q * Q) : list event :=
  let '(chunk, stamp, now) := round in
  [ETask false 0 (MicChunk chunk);
   ETask false 0 (SendOk stamp);
   ETask false 2 (Tick now)].

(** The assistant runs on the configuration [cfg], and its detector, if it
    has one, is the one [__init__] built from [cfg] up to its pending buffer
    and classifier state. *)
Definition configured (cfg : Config.WakeWordConfig) (self : t M) : Prop :=
  wakeword_config self = cfg /\
  forall d, _wakeword_detector self = Some d ->
    WakeWordDetector.threshold d = Config.threshold cfg /\
    WakeWordDetector._chunk_samples d = 1280 /\
    WakeWordDetector.model_names d =
      WakeWordDetector.model_names
        (WakeWordDetector.__init__ (Config.model_path cfg) (Config.threshold cfg)
                                   (Config.inference_framework cfg)) /\
    length (WakeWordDetector._buffer d) < 1280.

(** Where [run] is relative to the running flag: before [run] and after it
    the assistant is stopped, and with detection disabled [run] never
    listens for a wake word. *)
Definition run_bracket (s : system M) : Prop :=
  (main s = MainIdle \/ main s = MainDone -> _running (va s) = false) /\
  (Config.enabled (wakeword_config (va s)) = false -> main s <> MainWake).

End Session.

End Session.

(* ================================================================== *)
(** * Properties of the wake-word detector *)

Unset Implicit Arguments.

Section FloatOrder.

Local Open Scope float_scope.

Lemma SFcompare_antisym (x y : SpecFloat.spec_float) :
  SpecFloat.SFcompare y x = option_map CompOpp (SpecFloat.SFcompare x y).
Proof.
  destruct x as [[]|[]| |[] mx ex], y as [[]|[]| |[] my ey];
    simpl; try reflexivity;
    rewrite (Z.compare_antisym ex ey);
    destruct (ex ?= ey)%Z; simpl; try reflexivity;
    change (PosDef.Pos.compare_cont Eq my mx) with (Pos.compare my mx);
    change (PosDef.Pos.compare_cont Eq mx my) with (Pos.compare mx my);
    rewrite (Pos.compare_antisym mx my);
    destruct (mx ?= my)%positive; reflexivity.
Qed.

(** [score == threshold] gives [score >= threshold]. *)
Lemma leb_of_eqb (score th : float) :
  (score =? th) = true -> (th <=? score) = true.
Proof.
  rewrite FloatAxioms.eqb_spec, FloatAxioms.leb_spec. unfold SpecFloat.SFeqb, SpecFloat.SFleb.
  rewrite (SFcompare_antisym (Prim2SF score) (Prim2SF th)).
  destruct (SpecFloat.SFcompare (Prim2SF score) (Prim2SF th)) as [[]|];
    simpl; congruence.
Qed.

(** [score < threshold] excludes [score >= threshold]. *)
Lemma leb_of_ltb (score th : float) :
  (score <? th) = true -> (th <=? score) = false.
Proof.
  rewrite FloatAxioms.ltb_spec, FloatAxioms.leb_spec. unfold SpecFloat.SFltb, SpecFloat.SFleb.
  rewrite (SFcompare_antisym (Prim2SF score) (Prim2SF th)).
  destruct (SpecFloat.SFcompare (Prim2SF score) (Prim2SF th)) as [[]|];
    simpl; congruence.
Qed.

End FloatOrder.

Section Helpers.

Example split_on_path :
  split_on "/" "/opt/models/hey_glados.onnx" =
    [EmptyString; "opt"; "models"; "hey_glados.onnx"]%string.
Proof. reflexivity. Qed.

Example replace_suffix :
  replace ".onnx" EmptyString "hey_glados.onnx" = "hey_glados"%string.
Proof. reflexivity. Qed.

Example int16_le_minus_one : int16_le xff xff = (-1)%Z.
Proof. reflexivity. Qed.

Example int16_le_low_byte_first : int16_le x01 x02 = 513%Z.
Proof. reflexivity. Qed.

Example frombuffer_two_samples :
  frombuffer [x00; x80; xff; x7f] = Some [-32768; 32767]%Z.
Proof. reflexivity. Qed.

Example model_names_custom :
  WakeWordDetector.model_names
    (@WakeWordDetector.__init__ nat Examples.calm_classifier
       (Some "/opt/models/hey_glados.onnx"%string) 0.5%float "onnx") =
    ["hey_glados"%string].
Proof. reflexivity. Qed.

End Helpers.

Section Decoding.

(** Lists two elements at a time, as [frombuffer] consumes them. *)
Lemma pairs_ind (A : Type) (P : list A -> Prop) :
  P [] -> (forall x, P [x]) -> (forall x y l, P l -> P (x :: y :: l)) ->
  forall l, P l.
Proof.
  intros H0 H1 H2 l.
  assert (both : P l /\ forall x, P (x :: l)).
  { induction l as [|y l [IH IH']]; split; auto. }
  exact (proj1 both).
Qed.

Lemma frombuffer_length (b : list byte) (s : list Z) :
  frombuffer b = Some s -> length b = 2 * length s.
Proof.
  revert s. induction b as [|x|x y l IH] using pairs_ind; intros s E.
  - injection E as <-. reflexivity.
  - discriminate.
  - simpl in E. destruct (frombuffer l) as [s'|]; [|discriminate].
    injection E as <-. simpl. rewrite (IH s' eq_refl). lia.
Qed.

Lemma frombuffer_even (b : list byte) :
  Nat.even (length b) = true -> exists s, frombuffer b = Some s.
Proof.
  induction b as [|x|x y l IH] using pairs_ind; intros E.
  - exists []. reflexivity.
  - discriminate.
  - destruct (IH E) as [s Hs]. exists (int16_le x y :: s).
    simpl. rewrite Hs. reflexivity.
Qed.

Lemma frombuffer_odd (b : list byte) :
  Nat.even (length b) = false -> frombuffer b = None.
Proof.
  induction b as [|x|x y l IH] using pairs_ind; intros E.
  - discriminate.
  - reflexivity.
  - simpl. rewrite (IH E). reflexivity.
Qed.

Lemma frombuffer_app (a b : list byte) (x y : list Z) :
  frombuffer a = Some x -> frombuffer b = Some y ->
  frombuffer (a ++ b) = Some (x ++ y).
Proof.
  revert x. induction a as [|c|c c' l IH] using pairs_ind; intros x Ha Hb.
  - injection Ha as <-. exact Hb.
  - discriminate.
  - simpl in Ha. destruct (frombuffer l) as [s'|]; [|discriminate].
    injection Ha as <-. simpl. rewrite (IH s' eq_refl Hb). reflexivity.
Qed.

(** Chunks of whole samples concatenate to a chunk of whole samples. *)
Lemma frombuffer_concat (chunks : list (list byte)) :
  forallb (fun c => Nat.even (length c)) chunks = true ->
  exists samples, frombuffer (concat chunks) = Some samples.
Proof.
  induction chunks as [|c rest IH]; intros E.
  - exists []. reflexivity.
  - simpl in E. apply andb_prop in E as [Ec Er].
    destruct (IH Er) as [srest Hr].
    destruct (frombuffer_even c Ec) as [s Hs].
    exists (s ++ srest). simpl. apply frombuffer_app; assumption.
Qed.

Lemma frombuffer_whole (b : list byte) (s : list Z) :
  frombuffer b = Some s -> Nat.even (length b) = true.
Proof.
  intros E. rewrite (frombuffer_length b s E).
  apply Nat.even_spec. exists (length s). reflexivity.
Qed.

End Decoding.

Section Framing.

Import WakeWordDetector.

Lemma spec_frames_short (n : nat) (s : list Z) :
  length s < n -> spec_frames n s = [] /\ spec_pending n s = s.
Proof.
  intros L. unfold spec_frames, spec_pending.
  rewrite (Nat.div_small _ _ L). rewrite Nat.mul_0_r. split; reflexivity.
Qed.

Lemma div_step (n len : nat) :
  0 < n -> n <= len -> len / n = S ((len - n) / n).
Proof.
  intros Hn L.
  replace len with ((len - n) + 1 * n) at 1 by lia.
  rewrite Nat.div_add by lia. lia.
Qed.

Lemma spec_frames_step (n : nat) (s : list Z) :
  0 < n -> n <= length s ->
  spec_frames n s = firstn n s :: spec_frames n (skipn n s) /\
  spec_pending n s = spec_pending n (skipn n s).
Proof.
  intros Hn L. unfold spec_frames, spec_pending.
  rewrite length_skipn, (div_step n (length s) Hn L). split.
  - simpl seq. simpl map. f_equal.
    rewrite <- seq_shift, map_map. apply map_ext. intros i.
    rewrite skipn_skipn. do 2 f_equal. lia.
  - rewrite skipn_skipn. f_equal. lia.
Qed.

Lemma spec_frames_length (n : nat) (s : list Z) :
  length (spec_frames n s) = length s / n.
Proof. unfold spec_frames. rewrite length_map, length_seq. reflexivity. Qed.

Lemma spec_frames_full (n : nat) (s : list Z) :
  Forall (fun f => length f = n) (spec_frames n s).
Proof.
  unfold spec_frames. apply Forall_forall. intros f Hf.
  apply in_map_iff in Hf as (i & <- & Hi). apply in_seq in Hi.
  destruct (Nat.eq_dec n 0) as [->|Hn]; [reflexivity|].
  rewrite length_firstn, length_skipn.
  assert (i * n + n <= length s).
  { assert (S i <= length s / n) by lia.
    pose proof (Nat.Div0.mul_div_le (length s) n).
    nia. }
  lia.
Qed.

Lemma spec_pending_length (n : nat) (s : list Z) :
  0 < n -> length (spec_pending n s) = length s mod n.
Proof.
  intros Hn. unfold spec_pending. rewrite length_skipn.
  pose proof (Nat.div_mod_eq (length s) n). lia.
Qed.

(** Pending samples followed by new ones frame like the whole sequence. *)
Lemma spec_frames_app (n : nat) (s extra : list Z) :
  0 < n ->
  spec_frames n (s ++ extra) =
    spec_frames n s ++ spec_frames n (spec_pending n s ++ extra) /\
  spec_pending n (s ++ extra) = spec_pending n (spec_pending n s ++ extra).
Proof.
  intros Hn. remember (length s) as len eqn:E.
  revert s E. induction len as [len IH] using lt_wf_ind. intros s E.
  destruct (Nat.lt_ge_cases (length s) n) as [L|L].
  - destruct (spec_frames_short n s L) as [-> ->]. split; reflexivity.
  - assert (La : n <= length (s ++ extra)) by (rewrite length_app; lia).
    destruct (spec_frames_step n s Hn L) as [-> ->].
    destruct (spec_frames_step n (s ++ extra) Hn La) as [-> ->].
    rewrite firstn_app, skipn_app.
    replace (n - length s) with 0 by lia. simpl firstn. simpl skipn.
    rewrite app_nil_r.
    destruct (IH (length (skipn n s))) with (s := skipn n s) as [-> ->];
      [rewrite length_skipn; lia | reflexivity |].
    split; reflexivity.
Qed.

End Framing.

Section DetectorLoop.

Import WakeWordDetector.
Context {M : Type} `{Model.Classifier M}.

(** What [process_audio] leaves behind, given what the scan of the frames
    of its buffer found. *)
Lemma process_loop_scan (fuel : nat) (d : t M) :
  0 < _chunk_samples d -> length (_buffer d) <= fuel ->
  process_loop fuel d =
    (let '(m', calls, r) :=
       spec_scan (threshold d) (model d)
                 (spec_frames (_chunk_samples d) (_buffer d)) in
     match r with
     | Some w =>
         (mk (Model.reset m') (_model_names d) (threshold d) []
             (_chunk_samples d), calls, Returned (Some w))
     | None =>
         (mk m' (_model_names d) (threshold d)
             (spec_pending (_chunk_samples d) (_buffer d))
             (_chunk_samples d), calls, Returned None)
     end).
Proof.
  revert d. induction fuel as [|fuel IH]; intros [m names th buf n] Hn Hf;
    simpl in Hn, Hf; simpl.
  - destruct (Nat.leb_spec n (length buf)) as [L|L]; [lia|].
    destruct (spec_frames_short n buf L) as [-> ->]. reflexivity.
  - destruct (Nat.leb_spec n (length buf)) as [L|L].
    + destruct (spec_frames_step n buf Hn L) as [-> ->]. simpl.
      destruct (Model.predict m (firstn n buf)) as [m' p]. simpl.
      destruct (first_over th p) as [w|]; [reflexivity|].
      rewrite IH; simpl; [|assumption|rewrite length_skipn; lia].
      destruct (spec_scan th m' (spec_frames n (skipn n buf))) as [[m'' calls] r].
      destruct r; reflexivity.
    + destruct (spec_frames_short n buf L) as [-> ->]. reflexivity.
Qed.

Lemma process_audio_scan (d : t M) (chunk : list byte) (samples : list Z) :
  0 < _chunk_samples d -> frombuffer chunk = Some samples ->
  process_audio d chunk =
    (let '(m', calls, r) :=
       spec_scan (threshold d) (model d)
                 (spec_frames (_chunk_samples d) (_buffer d ++ samples)) in
     match r with
     | Some w =>
         (mk (Model.reset m') (_model_names d) (threshold d) []
             (_chunk_samples d), calls, Returned (Some w))
     | None =>
         (mk m' (_model_names d) (threshold d)
             (spec_pending (_chunk_samples d) (_buffer d ++ samples))
             (_chunk_samples d), calls, Returned None)
     end).
Proof.
  intros Hn E. unfold process_audio. rewrite E.
  rewrite process_loop_scan; destruct d; simpl in *; auto.
Qed.

(** The shape of a scan: the classifier is consulted frame after frame, and
    either the last call is the first one over the threshold, or every frame
    was scored and none was. *)
Lemma spec_scan_shape (th : float) (frames : list (list Z)) (m : M) :
  let '(m', calls, r) := spec_scan th m frames in
  calls = calls_of m (map fst calls) /\
  m' = model_after m (map fst calls) /\
  match r with
  | Some w =>
      exists before f p after,
        frames = map fst before ++ f :: after /\
        calls = before ++ [(f, p)] /\
        Forall (quiet th) before /\
        first_over th p = Some w
  | None => map fst calls = frames /\ Forall (quiet th) calls
  end.
Proof.
  revert m. induction frames as [|f rest IH]; intros m; simpl.
  - repeat split. constructor.
  - destruct (Model.predict m f) as [m1 p] eqn:E.
    destruct (first_over th p) as [w|] eqn:F.
    + simpl. rewrite E. simpl. repeat split.
      exists [], f, p, rest. repeat split; auto.
    + specialize (IH m1).
      destruct (spec_scan th m1 rest) as [[m2 calls] r].
      destruct IH as (Hc & Hm & Hr). simpl. rewrite E. simpl.
      split; [f_equal; exact Hc|]. split; [exact Hm|].
      destruct r as [w|].
      * destruct Hr as (before & f' & p' & after & H1 & H2 & H3 & H4).
        exists ((f, p) :: before), f', p', after. simpl.
        rewrite H1, H2. repeat split; auto.
      * destruct Hr as [H1 H2]. split; [f_equal; exact H1|].
        constructor; [exact F|exact H2].
Qed.

(** With a classifier that never reaches the threshold the scan scores
    every frame. *)
Lemma spec_scan_quiet (th : float) (frames : list (list Z)) (m : M) :
  (forall m' f, first_over th (snd (Model.predict m' f)) = None) ->
  exists m' calls,
    spec_scan th m frames = (m', calls, None) /\ map fst calls = frames.
Proof.
  intros Q. revert m. induction frames as [|f rest IH]; intros m; simpl.
  - exists m, []. split; reflexivity.
  - pose proof (Q m f) as Qf.
    destruct (Model.predict m f) as [m1 p]. simpl in Qf. rewrite Qf.
    destruct (IH m1) as (m2 & calls & -> & Hc).
    exists m2, ((f, p) :: calls). simpl. rewrite Hc. split; reflexivity.
Qed.

(** [process_loop] never touches the configuration, whatever the fuel. *)
Lemma process_loop_frame (fuel : nat) (d : t M) :
  let '(d', _, _) := process_loop fuel d in
  threshold d' = threshold d /\
  _chunk_samples d' = _chunk_samples d /\
  _model_names d' = _model_names d.
Proof.
  revert d. induction fuel as [|fuel IH]; intros d; simpl.
  - destruct (_chunk_samples d <=? length (_buffer d)); auto.
  - destruct (_chunk_samples d <=? length (_buffer d)); auto.
    destruct (Model.predict _ _) as [m' p].
    destruct (first_over _ p); [simpl; auto|].
    match goal with |- context [process_loop fuel ?x] =>
      specialize (IH x); destruct (process_loop fuel x) as [[d3 calls] r] end.
    simpl in IH. exact IH.
Qed.

End DetectorLoop.

Section DetectorClaims.

Import WakeWordDetector.
Context {M : Type} `{Model.Classifier M}.

(** Pushing chunks of whole samples into a detector whose classifier stays
    under the threshold: every call returns no detection, the frames scored
    are those of the pending samples followed by the pushed ones, and what
    is left over stays pending. *)
Lemma process_all_quiet (chunks : list (list byte)) :
  forall (d : t M) (samples : list Z),
    0 < _chunk_samples d ->
    length (_buffer d) < _chunk_samples d ->
    (forall m f, first_over (threshold d) (snd (Model.predict m f)) = None) ->
    forallb (fun c => Nat.even (length c)) chunks = true ->
    frombuffer (concat chunks) = Some samples ->
    exists d' calls,
      process_all d chunks = (d', calls, map (fun _ => Returned None) chunks) /\
      map fst calls = spec_frames (_chunk_samples d) (_buffer d ++ samples) /\
      _buffer d' = spec_pending (_chunk_samples d) (_buffer d ++ samples).
Proof.
  induction chunks as [|c rest IH]; intros d samples Hn Hb Q Ev Hs.
  - injection Hs as <-. exists d, []. rewrite app_nil_r.
    destruct (spec_frames_short _ _ Hb) as [-> ->]. repeat split.
  - simpl in Ev. apply andb_prop in Ev as [Ec Er].
    destruct (frombuffer_even c Ec) as [s1 H1].
    destruct (frombuffer_concat rest Er) as [s2 H2].
    simpl in Hs. rewrite (frombuffer_app _ _ _ _ H1 H2) in Hs.
    injection Hs as <-.
    simpl. rewrite (process_audio_scan d c s1 Hn H1).
    destruct (spec_scan_quiet (threshold d) (spec_frames (_chunk_samples d)
                (_buffer d ++ s1)) (model d) Q) as (m1 & calls1 & -> & Hc1).
    set (d1 := mk m1 (_model_names d) (threshold d)
                  (spec_pending (_chunk_samples d) (_buffer d ++ s1))
                  (_chunk_samples d)).
    destruct (IH d1 s2) as (d2 & calls2 & -> & Hc2 & Hb2); simpl; auto.
    { rewrite spec_pending_length by assumption.
      apply Nat.mod_upper_bound. lia. }
    exists d2, (calls1 ++ calls2). split; [reflexivity|].
    simpl in Hc2, Hb2. rewrite app_assoc.
    destruct (spec_frames_app (_chunk_samples d) (_buffer d ++ s1) s2 Hn)
      as [-> ->].
    split; [rewrite map_app; f_equal; assumption|exact Hb2].
Qed.

(** C1. Pushed into a detector with nothing pending and a classifier that
    never reaches the threshold, chunks carrying N samples in total make
    the detector score exactly N / 1280 frames, the i-th being samples
    1280 i .. 1280 i + 1279 of the sequence (oldest first), every call
    returns no detection, N mod 1280 samples stay pending, and the frames
    are those scored when the whole sequence is pushed as one chunk. *)
Theorem framing_correct (d : t M) (chunks : list (list byte)) :
  _chunk_samples d = 1280 ->
  _buffer d = [] ->
  (forall m f, first_over (threshold d) (snd (Model.predict m f)) = None) ->
  forallb (fun c => Nat.even (length c)) chunks = true ->
  exists samples,
    frombuffer (concat chunks) = Some samples /\
    let N := length samples in
    let '(d', calls, outs) := process_all d chunks in
    outs = map (fun _ => Returned None) chunks /\
    length calls = N / 1280 /\
    (forall i, i < N / 1280 ->
       nth_error (map fst calls) i = Some (firstn 1280 (skipn (i * 1280) samples))) /\
    _buffer d' = skipn (1280 * (N / 1280)) samples /\
    length (_buffer d') = N mod 1280 /\
    map fst calls = map fst (snd (fst (process_all d [concat chunks]))).
Proof.
  intros Hn Hb Q Ev.
  destruct (frombuffer_concat chunks Ev) as [samples Hs].
  exists samples. split; [exact Hs|].
  assert (Hpos : 0 < _chunk_samples d) by lia.
  assert (Hlt : length (_buffer d) < _chunk_samples d) by (rewrite Hb; simpl; lia).
  destruct (process_all_quiet chunks d samples Hpos Hlt Q Ev Hs)
    as (d' & calls & -> & Hc & Hp).
  assert (Ev1 : forallb (fun c => Nat.even (length c)) [concat chunks] = true).
  { simpl. rewrite (frombuffer_whole _ _ Hs). reflexivity. }
  assert (Hs1 : frombuffer (concat [concat chunks]) = Some samples).
  { simpl. rewrite app_nil_r. exact Hs. }
  destruct (process_all_quiet [concat chunks] d samples Hpos Hlt Q Ev1 Hs1)
    as (d1 & calls1 & -> & Hc1 & _).
  rewrite Hb, Hn in *. simpl app in *. cbv zeta.
  assert (Hlen : length calls = length samples / 1280).
  { pose proof (spec_frames_length 1280 samples) as L.
    rewrite <- Hc, length_map in L. exact L. }
  repeat split.
  - exact Hlen.
  - intros i Hi. rewrite Hc. unfold spec_frames.
    rewrite nth_error_map.
    rewrite (nth_error_nth' _ 0) by (rewrite length_seq; exact Hi).
    rewrite seq_nth by exact Hi. reflexivity.
  - exact Hp.
  - rewrite Hp. apply spec_pending_length. lia.
  - simpl. rewrite Hc, Hc1. reflexivity.
Qed.


(** C6. When a call to [process_audio] returns, with a label or without,
    fewer than 1280 samples are pending. *)
Theorem buffer_below_frame (d : t M) (chunk : list byte) :
  _chunk_samples d = 1280 ->
  (exists r, snd (process_audio d chunk) = Returned r) ->
  length (_buffer (fst (fst (process_audio d chunk)))) < 1280.
Proof.
  intros Hn [r Hr].
  destruct (frombuffer chunk) as [samples|] eqn:Hs.
  - rewrite (process_audio_scan d chunk samples) by (assumption || lia).
    destruct (spec_scan _ _ _) as [[m' calls] [w|]]; simpl; [lia|].
    rewrite spec_pending_length, Hn by lia.
    apply Nat.mod_upper_bound. lia.
  - unfold process_audio in Hr. rewrite Hs in Hr. discriminate.
Qed.

End DetectorClaims.

Section DetectorBoundary.

Import WakeWordDetector.
Context {M : Type} `{Model.Classifier M}.

Lemma first_over_below (th : float) (items : list (string * float)) :
  Forall (fun c => (snd c <? th)%float = true) items ->
  first_over th items = None.
Proof.
  induction 1 as [|[w s] rest Hs _ IH]; simpl; [reflexivity|].
  simpl in Hs. rewrite (leb_of_ltb s th Hs). exact IH.
Qed.

Lemma spec_frames_single (samples : list Z) :
  length samples = 1280 ->
  spec_frames 1280 samples = [samples] /\ spec_pending 1280 samples = [].
Proof.
  intros L.
  destruct (spec_frames_step 1280 samples) as [-> ->]; [lia|lia|].
  rewrite firstn_all2, skipn_all2 by lia.
  destruct (spec_frames_short 1280 (@nil Z)) as [-> ->]; [simpl; lia|].
  split; reflexivity.
Qed.

(** C7. The comparison of lines 75-78 is inclusive: a score equal to the
    threshold is a detection, scores strictly below it are not; and so for
    a call that scores one frame. *)
Theorem threshold_inclusive (th : float) :
  (forall w s rest,
     (s =? th)%float = true -> first_over th ((w, s) :: rest) = Some w) /\
  (forall items,
     Forall (fun c => (snd c <? th)%float = true) items ->
     first_over th items = None) /\
  (forall (d : t M) chunk samples w s m',
     _chunk_samples d = 1280 -> _buffer d = [] -> threshold d = th ->
     frombuffer chunk = Some samples -> length samples = 1280 ->
     Model.predict (model d) samples = (m', [(w, s)]) ->
     ((s =? th)%float = true ->
        snd (process_audio d chunk) = Returned (Some w)) /\
     ((s <? th)%float = true ->
        snd (process_audio d chunk) = Returned None)).
Proof.
  split; [|split].
  - intros w s rest E. simpl. rewrite (leb_of_eqb s th E). reflexivity.
  - apply first_over_below.
  - intros d chunk samples w s m' Hn Hb Ht Hs L P.
    rewrite (process_audio_scan d chunk samples) by (assumption || lia).
    rewrite Hn, Hb, Ht. simpl app.
    destruct (spec_frames_single samples L) as [-> ->].
    simpl. rewrite P. simpl. split; intros E.
    + rewrite (leb_of_eqb s th E). reflexivity.
    + rewrite (leb_of_ltb s th E). reflexivity.
Qed.

Lemma scored_frames_full (th : float) (m : M) (frames : list (list Z)) :
  Forall (fun f => length f = 1280) frames ->
  Forall (fun c => length (fst c) = 1280) (snd (fst (spec_scan th m frames))).
Proof.
  intros F.
  pose proof (spec_scan_shape th frames m) as Sh.
  destruct (spec_scan th m frames) as [[m' calls] r].
  destruct Sh as (_ & _ & Hr). simpl.
  apply Forall_map with (f := fst) (P := fun f => length f = 1280).
  destruct r as [w|].
  - destruct Hr as (before & f & p & after & H1 & H2 & _).
    rewrite H1 in F. apply Forall_app in F as [F1 F2].
    rewrite H2, map_app. apply Forall_app. split; [exact F1|].
    constructor; [|constructor]. inversion F2; assumption.
  - destruct Hr as [-> _]. exact F.
Qed.

(** C8, amended. A chunk with an even number of bytes, the empty chunk and
    chunks that do not fill a frame included, is accepted: the call returns
    and every frame handed to the classifier has 1280 samples.  A chunk
    with an odd number of bytes makes [np.frombuffer] raise [ValueError],
    and the detector is left as it was. *)
Theorem whole_samples_accepted (d : t M) (chunk : list byte) :
  _chunk_samples d = 1280 ->
  (Nat.even (length chunk) = true ->
     exists d' calls r,
       process_audio d chunk = (d', calls, Returned r) /\
       Forall (fun c => length (fst c) = 1280) calls) /\
  (Nat.even (length chunk) = false ->
     process_audio d chunk = (d, [], Raised frombuffer_error)).
Proof.
  intros Hn. split; intros E.
  - destruct (frombuffer_even chunk E) as [samples Hs].
    rewrite (process_audio_scan d chunk samples) by (assumption || lia).
    pose proof (scored_frames_full (threshold d) (model d)
                  (spec_frames (_chunk_samples d) (_buffer d ++ samples))) as F.
    rewrite Hn in *. specialize (F (spec_frames_full 1280 _)).
    destruct (spec_scan _ _ _) as [[m' calls] [w|]]; simpl in F;
      eexists _, calls, _; (split; [reflexivity|exact F]).
  - unfold process_audio. rewrite (frombuffer_odd chunk E). reflexivity.
Qed.

(** C10. [process_audio] and [reset] leave the threshold, the frame length
    and the model names as they were, and the frame length is the 1280 that
    [__init__] set. *)
Theorem configuration_untouched (d : t M) (chunk : list byte) :
  let d1 := fst (fst (process_audio d chunk)) in
  let d2 := reset d in
  (threshold d1 = threshold d /\
   _chunk_samples d1 = _chunk_samples d /\
   model_names d1 = model_names d) /\
  (threshold d2 = threshold d /\
   _chunk_samples d2 = _chunk_samples d /\
   model_names d2 = model_names d) /\
  (forall path th framework,
     _chunk_samples (__init__ path th framework) = 1280 /\
     threshold (__init__ path th framework) = th).
Proof.
  split; [|split].
  - unfold process_audio. destruct (frombuffer chunk) as [samples|].
    + match goal with |- context [process_loop ?f ?x] =>
        pose proof (process_loop_frame f x) as F;
        destruct (process_loop f x) as [[d' calls] r] end.
      exact F.
    + simpl. auto.
  - simpl. auto.
  - intros [[|c p]|] th fw; simpl; auto.
Qed.

End DetectorBoundary.



Section DetectorWitnesses.

Import WakeWordDetector Examples.
Existing Instance calm_classifier.
Existing Instance hey_x_classifier.

(** 1000, 500 and 1 samples, then an empty chunk: one frame, 221 pending. *)
Lemma framing_correct_witness :
  exists samples,
    frombuffer (concat [silence 2000; silence 1000; [x01; x02]; []]) = Some samples /\
    let N := length samples in
    let '(d', calls, outs) :=
      process_all calm [silence 2000; silence 1000; [x01; x02]; []] in
    outs = map (fun _ => Returned None) [silence 2000; silence 1000; [x01; x02]; []] /\
    length calls = N / 1280 /\
    (forall i, i < N / 1280 ->
       nth_error (map fst calls) i = Some (firstn 1280 (skipn (i * 1280) samples))) /\
    _buffer d' = skipn (1280 * (N / 1280)) samples /\
    length (_buffer d') = N mod 1280 /\
    map fst calls =
      map fst (snd (fst (process_all calm
                           [concat [silence 2000; silence 1000; [x01; x02]; []]]))).
Proof.
  apply (framing_correct calm [silence 2000; silence 1000; [x01; x02]; []]).
  - reflexivity.
  - reflexivity.
  - intros m f. reflexivity.
  - vm_compute. reflexivity.
Defined.


(** The scenario, evaluated: the label comes back on the second frame, two
    frames were scored, and the third score is still in the script. *)
Example scenario_three_frames :
  let '(d', calls, out) := process_audio scripted_hey_x (silence 7680) in
  out = Returned (Some "hey-x"%string) /\
  map snd calls = [[("hey-x"%string, 0.1%float)]; [("hey-x"%string, 0.6%float)]] /\
  map fst calls = [repeat 0%Z 1280; repeat 0%Z 1280] /\
  Scripted.script (model d') = [[("hey-x"%string, 0.9%float)]] /\
  Scripted.seen (model d') = [] /\
  _buffer d' = [].
Proof. vm_compute. repeat split. Qed.

Lemma buffer_below_frame_witness :
  length (_buffer (fst (fst (process_audio calm (silence 3000))))) < 1280.
Proof.
  apply (buffer_below_frame calm (silence 3000)).
  - reflexivity.
  - exists None. vm_compute. reflexivity.
Defined.

Lemma threshold_inclusive_witness :
  first_over 0.5%float [("hey_jarvis"%string, 0.5%float)] = Some "hey_jarvis"%string /\
  first_over 0.5%float [("hey_jarvis"%string, 0.4999%float)] = None.
Proof.
  destruct (threshold_inclusive (M := nat)
              (H := Constant.classifier []) 0.5%float) as (Heq & Hlt & _).
  split.
  - apply Heq. reflexivity.
  - apply Hlt. constructor; [reflexivity|constructor].
Defined.

Lemma whole_samples_accepted_witness :
  (exists d' calls r,
     process_audio calm (silence 3000) = (d', calls, Returned r) /\
     Forall (fun c => length (fst c) = 1280) calls) /\
  process_audio calm [x00; x01; x02] = (calm, [], Raised frombuffer_error).
Proof.
  split.
  - apply (whole_samples_accepted calm (silence 3000)); reflexivity.
  - apply (whole_samples_accepted calm [x00; x01; x02]); reflexivity.
Defined.

(** C8 as stated fails: a three-byte chunk does not complete normally. *)
Lemma odd_chunk_raises :
  ~ (exists r, snd (process_audio calm [x00; x01; x02]) = Returned r).
Proof. intros [r E]. vm_compute in E. discriminate E. Qed.

End DetectorWitnesses.

(* ================================================================== *)
(** * Properties of the assistant *)

Section AssistantTasks.

Import VoiceAssistant.
Context {M : Type} `{Model.Classifier M}.

Lemma state_eqb_eq (a b : AssistantState) : state_eqb a b = true <-> a = b.
Proof. destruct a, b; simpl; split; congruence. Qed.

Lemma play_parts_started (parts : list Live.Part) (p : Audio.AudioPlayer) :
  Audio.player_started (play_parts p parts) = Audio.player_started p.
Proof.
  revert p. induction parts as [|part rest IH]; intros p; simpl; auto.
  destruct (Live.inline_data part); rewrite IH; reflexivity.
Qed.

(** What resuming a task can do to the assistant. *)
Lemma task_step_effect (a a' : t M) (pc pc' : task) (ev : task_event) :
  task_step a pc ev = Some (a', pc') ->
  _running a' = _running a /\
  wakeword_config a' = wakeword_config a /\
  _wakeword_detector a' = _wakeword_detector a /\
  (_capture a' = _capture a /\
   Audio.player_started (_player a') = Audio.player_started (_player a)) /\
  task_kind pc' = task_kind pc /\
  (_state a = LISTENING -> _state a' = LISTENING) /\
  (pc' = WdFinished -> _state a' = LISTENING \/ _running a' = false) /\
  (_state a' <> _state a ->
     (pc = RecvWait /\ (exists r now, ev = ServerMsg r now) /\
      _running a = true /\ _state a <> LISTENING /\ _state a' <> LISTENING) \/
     (pc = WdSleep /\
      exists now, ev = Tick now /\ _state a = ACTIVATED /\
                  (Config.timeout (wakeword_config a)
                     <= now - _last_activity_time a)%Q /\
                  _state a' = LISTENING)).
Proof.
  destruct a as [ac gc wc cap pl run st last det out].
  unfold task_step, _send_audio, _receive_audio, _check_timeout, stop_seen,
    session_live, on_response; simpl.
  destruct pc, ev; try discriminate; simpl; intros E;
    repeat match type of E with
           | context [if ?b then _ else _] => destruct b eqn:?
           | context [match ?x with _ => _ end] => destruct x eqn:?
           end;
    inversion E; subst; clear E; simpl in *;
    repeat match goal with
           | |- _ /\ _ => split
           | |- _ -> _ => intro
           end; auto using play_parts_started; try congruence.
  all: try (destruct st; simpl in *; try discriminate; auto; congruence).
  all: destruct run, st; simpl in *; try discriminate; auto; try congruence.
  all: try (left; repeat split; eauto; congruence).
  all: right; split; [reflexivity|]; exists now; repeat split; auto;
    apply Qle_bool_iff; assumption.
Qed.

End AssistantTasks.

Section AssistantInvariant.

Import VoiceAssistant.
Context {M : Type} `{Model.Classifier M}.

Lemma update_nth_lookup {A : Type} (l : list A) (i j : nat) (x y : A) :
  nth_error l i = Some y ->
  nth_error (update_nth i x l) j = if Nat.eqb i j then Some x else nth_error l j.
Proof.
  revert i j. induction l as [|z l IH]; intros [|i] [|j] E; simpl in *;
    try discriminate; auto.
Qed.

Lemma update_nth_map {A B : Type} (f : A -> B) (l : list A) (i : nat) (x y : A) :
  nth_error l i = Some y -> f x = f y ->
  map f (update_nth i x l) = map f l.
Proof.
  revert i. induction l as [|z l IH]; intros [|i] E F; simpl in *;
    try discriminate; auto.
  - injection E as ->. rewrite F. reflexivity.
  - rewrite (IH i E F). reflexivity.
Qed.

(** A detector with the frame length of [__init__] always returns or raises,
    and keeps its frame length. *)
Lemma process_audio_returns (d : WakeWordDetector.t M) (chunk : list byte) :
  WakeWordDetector._chunk_samples d = 1280 ->
  snd (WakeWordDetector.process_audio d chunk) <> OutOfFuel /\
  WakeWordDetector._chunk_samples
    (fst (fst (WakeWordDetector.process_audio d chunk))) = 1280.
Proof.
  intros Hn. destruct (frombuffer chunk) as [samples|] eqn:Hs.
  - rewrite (process_audio_scan d chunk samples) by (assumption || lia).
    destruct (WakeWordDetector.spec_scan _ _ _) as [[m' calls] [w|]]; simpl;
      split; (discriminate || assumption).
  - unfold WakeWordDetector.process_audio. rewrite Hs. simpl.
    split; [discriminate|assumption].
Qed.

Lemma shutdown_well_formed (a : t M) :
  well_formed a ->
  well_formed (shutdown a) /\ _state (shutdown a) = LISTENING /\
  _running (shutdown a) = false.
Proof.
  intros W. pose proof W as [W1 W2]. unfold shutdown.
  destruct (_running a) eqn:R; simpl.
  - split; [split; [intros _; repeat split|exact W2]|split; reflexivity].
  - split; [exact W|split; [exact (proj1 (W1 eq_refl))|exact R]].
Qed.

Lemma run_finally_suspended (a : t M) :
  well_formed a -> suspended (run_finally a).
Proof.
  intros W. destruct (shutdown_well_formed a W) as (W' & S & _).
  split; assumption.
Qed.

Lemma print_well_formed (a : t M) (line : printed) :
  well_formed a -> well_formed (print line a).
Proof. intros W. exact W. Qed.

Lemma run_loop_suspended (a : t M) (now : Q) :
  well_formed a -> _state a = LISTENING -> suspended (run_loop a now).
Proof.
  intros W S. unfold run_loop, _listen_for_wakeword_enter.
  destruct (_running a) eqn:R; [|apply run_finally_suspended; exact W].
  destruct W as [W1 W2].
  destruct (Config.enabled (wakeword_config a)) eqn:En.
  - destruct W2 as (d & -> & Hd). split; simpl; [|exact S].
    split; simpl; [congruence|]. rewrite En. eexists. split; [reflexivity|exact Hd].
  - split; simpl; [|exact I]. split; simpl; [congruence|].
    rewrite En. exact W2.
Qed.

Lemma run_after_session_suspended (a : t M) (now : Q) :
  well_formed a -> _state a = LISTENING -> suspended (run_after_session a now).
Proof.
  intros W S. unfold run_after_session.
  destruct (negb _); [apply run_finally_suspended|apply run_loop_suspended];
    assumption.
Qed.

Lemma session_leave_well_formed (a : t M) (err : option exn) :
  well_formed a ->
  well_formed (_run_session_leave a err) /\ _state (_run_session_leave a err) = LISTENING.
Proof.
  intros [W1 W2]. unfold _run_session_leave.
  destruct err; simpl;
    (split; [split; [|exact W2]|reflexivity]);
    intros R; destruct (W1 R) as (_ & C & P); repeat split; assumption.
Qed.

Lemma run_enter_suspended (a : t M) (now : Q) :
  well_formed a -> _state a = LISTENING -> suspended (run_enter a now).
Proof.
  intros [W1 W2] S. unfold run_enter.
  destruct (Config.enabled (wakeword_config a)) eqn:En.
  - destruct W2 as (d & E & Hd). rewrite E.
    apply run_loop_suspended; simpl; [|exact S].
    split; simpl; [congruence|]. rewrite En. exists d. split; assumption.
  - apply run_loop_suspended; simpl; [|exact S].
    split; simpl; [congruence|]. rewrite En. exact W2.
Qed.

Lemma listen_chunk_suspended (a : t M) (chunk : list byte) (now : Q) :
  well_formed a -> _state a = LISTENING -> suspended (_listen_for_wakeword_chunk a chunk now).
Proof.
  intros W S. unfold _listen_for_wakeword_chunk.
  destruct (negb (_running a)) eqn:R; [apply run_finally_suspended; exact W|].
  destruct W as [W1 W2].
  destruct (_wakeword_detector a) as [d|] eqn:D.
  - destruct (Config.enabled (wakeword_config a)) eqn:En; [|discriminate].
    destruct W2 as (d0 & E0 & Hd). injection E0 as <-.
    destruct (process_audio_returns d chunk Hd) as [Hout Hn].
    destruct (WakeWordDetector.process_audio d chunk) as [[d' calls] r].
    simpl in Hout, Hn.
    assert (W' : well_formed (set_detector a (Some d'))).
    { split; simpl; [exact W1|]. rewrite En. exists d'. split; [reflexivity|exact Hn]. }
    destruct r as [detected|e|]; [| |congruence].
    + destruct detected as [[|c w]|]; simpl.
      * split; [exact W'|exact S].
      * split; [|exact I]. destruct W' as [W1' W2'].
        split; simpl; [|exact W2']. apply negb_false_iff in R. congruence.
      * split; [exact W'|exact S].
    + apply run_finally_suspended. exact W'.
  - apply run_finally_suspended. split; [exact W1|]. simpl.
    destruct (Config.enabled (wakeword_config a));
      [destruct W2 as (d & E & _); discriminate|exact D].
Qed.

End AssistantInvariant.

Section AssistantReachable.

Import VoiceAssistant.
Context {M : Type} `{Model.Classifier M}.

Lemma task_step_well_formed (a a' : t M) (pc pc' : task) (ev : task_event) :
  task_step a pc ev = Some (a', pc') -> well_formed a -> well_formed a'.
Proof.
  intros E [W1 W2].
  destruct (task_step_effect a a' pc pc' ev E)
    as (R & C & D & (Cap & Pl) & _ & L & _).
  split.
  - rewrite R. intros F. destruct (W1 F) as (S & Cs & Ps).
    split; [apply L, S|]. rewrite Cap, Pl. split; assumption.
  - rewrite C, D. exact W2.
Qed.

Lemma resume_task_invariant (s s' : system M) (zombie : bool) (i : nat)
    (ev : task_event) :
  invariant s -> resume_task s zombie i ev = Some s' -> invariant s'.
Proof.
  intros [W Im] E. unfold resume_task in E.
  destruct (nth_error (if zombie then zombies s else current s) i)
    as [pc|] eqn:N; [|discriminate].
  destruct (task_step (va s) pc ev) as [[a' pc']|] eqn:T; [|discriminate].
  pose proof (task_step_well_formed _ _ _ _ _ T W) as W'.
  destruct (task_step_effect _ _ _ _ _ T) as (_ & _ & _ & _ & K & L & F & _).
  assert (E' : va s' = a' /\ main s' = main s /\
               current s' = (if zombie then current s else update_nth i pc' (current s))).
  { destruct zombie; injection E as <-; simpl; auto. }
  destruct E' as (Ea & Em & Ec). clear E.
  split; rewrite Ea; [exact W'|]. rewrite Em, Ec.
  destruct (main s); auto.
  destruct Im as [Kinds Done]. destruct zombie.
  - split; [exact Kinds|]. intros D. apply L, Done, D.
  - split.
    + rewrite (update_nth_map task_kind _ i pc' pc N K). exact Kinds.
    + rewrite (update_nth_lookup _ i 2 pc' pc N).
      destruct (Nat.eqb i 2).
      * intros D. injection D as D.
        destruct (F D) as [S|R]; [exact S|]. exact (proj1 (proj1 W' R)).
      * intros D. apply L, Done, D.
Qed.

Lemma suspended_invariant (r : t M * main_pc) (cur zs : list task) :
  suspended r -> invariant (mkSystem (fst r) (snd r) cur zs).
Proof.
  destruct r as [a pc]. intros [W S]. simpl in *.
  split; simpl; [exact W|]. destruct pc; auto; contradiction.
Qed.

Lemma step_invariant (s s' : system M) (ev : event) :
  invariant s -> step s ev = Some s' -> invariant s'.
Proof.
  intros Inv E. pose proof Inv as [W Im].
  assert (Sh : ev = EShutdown -> invariant s').
  { intros ->. assert (E' : s' = mkSystem (shutdown (va s)) (main s)
                                          (current s) (zombies s)).
    { unfold step in E. destruct (main s); injection E as <-; reflexivity. }
    rewrite E'. destruct (shutdown_well_formed (va s) W) as (W' & S' & _).
    split; simpl; [exact W'|]. destruct (main s); auto.
    destruct Im as [Kinds Done]. split; auto. }
  assert (Ta : forall zombie i tev, ev = ETask zombie i tev -> invariant s').
  { intros zombie i tev ->. apply (resume_task_invariant s s' zombie i tev Inv).
    unfold step in E. destruct (main s); exact E. }
  destruct ev; try (apply Sh; reflexivity); try (eapply Ta; reflexivity);
    clear Sh Ta; simpl in E; destruct (main s) eqn:Hm; try discriminate.
  - (* ERun *)
    pose proof (run_enter_suspended (va s) now W Im) as Su.
    destruct (run_enter (va s) now) as [a' pc].
    injection E as <-. exact (suspended_invariant (a', pc) _ _ Su).
  - (* EWakeChunk *)
    pose proof (listen_chunk_suspended (va s) chunk now W Im) as Su.
    destruct (_listen_for_wakeword_chunk (va s) chunk now) as [a' pc].
    injection E as <-. exact (suspended_invariant (a', pc) _ _ Su).
  - (* EWakeEnd *)
    injection E as <-.
    exact (suspended_invariant (run_finally (va s)) _ _
             (run_finally_suspended (va s) W)).
  - (* EWakeError *)
    injection E as <-.
    exact (suspended_invariant (run_except (va s) e) _ _
             (run_finally_suspended _ (print_well_formed (va s) (P_error e) W))).
  - (* EConnected *)
    injection E as <-. split; simpl; [exact W|].
    split; [reflexivity|discriminate].
  - (* EConnectError *)
    destruct (session_leave_well_formed (va s) (Some e) W) as [W' S'].
    pose proof (run_after_session_suspended _ now W' S') as Su.
    destruct (run_after_session (_run_session_leave (va s) (Some e)) now) as [a' pc].
    injection E as <-. exact (suspended_invariant (a', pc) _ _ Su).
  - (* EGather *)
    destruct Im as [Kinds Done].
    destruct (first_exception (current s)) as [e|] eqn:Fe.
    + injection E as <-. split; simpl; [exact W|discriminate].
    + destruct (forallb task_finished (current s)) eqn:Fin; [|discriminate].
      injection E as <-. split; simpl; [exact W|]. intros _. apply Done.
      destruct (current s) as [|k1 [|k2 [|k3 [|k4 rest]]]]; try discriminate.
      simpl in Fin, Kinds. injection Kinds as _ _ K3.
      destruct k3; simpl in *; try discriminate; try reflexivity;
        rewrite ?andb_false_r in Fin; discriminate.
  - (* EClosed *)
    set (e := match close_err with Some e' => Some e' | None => err end) in E.
    destruct (session_leave_well_formed (va s) e W) as [W' S'].
    pose proof (run_after_session_suspended _ now W' S') as Su.
    destruct (run_after_session (_run_session_leave (va s) e) now) as [a' pc].
    injection E as <-. exact (suspended_invariant (a', pc) _ _ Su).
Qed.

End AssistantReachable.

Section AssistantTransitions.

Import VoiceAssistant.
Context {M : Type} `{Model.Classifier M}.

Lemma WakeWordDetector_init_frame (path : option string) (th : float)
    (framework : string) :
  WakeWordDetector._chunk_samples
    (WakeWordDetector.__init__ (M := M) path th framework) = 1280.
Proof. destruct path as [[|c p]|]; reflexivity. Qed.

Lemma boot_invariant (key : option string) (ac : option Config.AudioConfig)
    (gc : option Config.GeminiConfig) (wc : option Config.WakeWordConfig)
    (self : t M) :
  __init__ key ac gc wc = Returned self -> invariant (boot self).
Proof.
  unfold __init__. destruct (negb (truthy key)); [discriminate|].
  intros E. injection E as <-. split; simpl; [|reflexivity].
  split; simpl; [intros _; repeat split|].
  destruct (Config.enabled (or_default wc Config.WakeWordConfig_default));
    [|reflexivity].
  eexists. split; [reflexivity|apply WakeWordDetector_init_frame].
Qed.

Lemma steps_invariant (evs : list event) (s s' : system M) :
  invariant s -> steps s evs = Some s' -> invariant s'.
Proof.
  revert s. induction evs as [|ev rest IH]; intros s Inv E; simpl in E.
  - injection E as <-. exact Inv.
  - destruct (step s ev) as [s1|] eqn:E1; [|discriminate].
    exact (IH s1 (step_invariant s s1 ev Inv E1) E).
Qed.

Lemma reachable_invariant (s : system M) : reachable s -> invariant s.
Proof.
  intros (key & ac & gc & wc & self & evs & Hi & Hs).
  exact (steps_invariant evs _ s (boot_invariant key ac gc wc self Hi) Hs).
Qed.

Lemma shutdown_state (a : t M) :
  _state (shutdown a) = if _running a then LISTENING else _state a.
Proof. unfold shutdown. destruct (_running a); reflexivity. Qed.

Lemma run_finally_state (a : t M) :
  well_formed a -> _state (fst (run_finally a)) = LISTENING.
Proof. intros W. exact (proj1 (proj2 (shutdown_well_formed a W))). Qed.

Lemma run_loop_state (a : t M) (now : Q) :
  well_formed a -> _state a = LISTENING ->
  _state (fst (run_loop a now)) = LISTENING \/
  (_state (fst (run_loop a now)) = ACTIVATED /\
   Config.enabled (wakeword_config a) = false).
Proof.
  intros W S. unfold run_loop, _listen_for_wakeword_enter.
  destruct (_running a); [|left; apply run_finally_state; exact W].
  destruct W as [_ W2].
  destruct (Config.enabled (wakeword_config a)).
  - destruct W2 as (d & -> & _). left. exact S.
  - right. split; reflexivity.
Qed.

Lemma run_after_session_state (a : t M) (now : Q) :
  well_formed a -> _state a = LISTENING ->
  _state (fst (run_after_session a now)) = LISTENING.
Proof.
  intros W S. unfold run_after_session.
  destruct (Config.enabled (wakeword_config a)) eqn:En; simpl.
  - destruct (run_loop_state a now W S) as [L|[_ F]]; [exact L|congruence].
  - apply run_finally_state. exact W.
Qed.

Lemma run_enter_state (a : t M) (now : Q) :
  well_formed a -> _state a = LISTENING ->
  _state (fst (run_enter a now)) = LISTENING \/
  (_state (fst (run_enter a now)) = ACTIVATED /\
   Config.enabled (wakeword_config a) = false).
Proof.
  intros [W1 W2] S. unfold run_enter.
  destruct (Config.enabled (wakeword_config a)) eqn:En.
  - destruct W2 as (d & E & Hd). rewrite E.
    match goal with |- context [run_loop ?x now] =>
      destruct (run_loop_state x now) as [L|[_ F]] end; simpl; auto.
    + split; simpl; [congruence|]. rewrite En. exists d. split; assumption.
    + simpl in F. congruence.
  - match goal with |- context [run_loop ?x now] =>
      destruct (run_loop_state x now) as [L|[A _]] end; simpl; auto.
    split; simpl; [congruence|]. rewrite En. exact W2.
Qed.

Lemma listen_chunk_state (a : t M) (chunk : list byte) (now : Q) :
  well_formed a -> _state a = LISTENING ->
  _state (fst (_listen_for_wakeword_chunk a chunk now)) = LISTENING \/
  (_state (fst (_listen_for_wakeword_chunk a chunk now)) = ACTIVATED /\
   _running a = true /\
   exists d w,
     _wakeword_detector a = Some d /\
     snd (WakeWordDetector.process_audio d chunk) = Returned (Some w) /\
     w <> EmptyString).
Proof.
  intros W S. unfold _listen_for_wakeword_chunk.
  destruct (_running a) eqn:R; simpl;
    [|left; apply run_finally_state; exact W].
  destruct (_wakeword_detector a) as [d|] eqn:D.
  - destruct (WakeWordDetector.process_audio d chunk) as [[d' calls] r] eqn:P.
    assert (W' : well_formed (set_detector a (Some d'))).
    { pose proof (listen_chunk_suspended a chunk now W S) as Su.
      unfold _listen_for_wakeword_chunk in Su. rewrite R, D, P in Su. simpl in Su.
      destruct W as [W1 W2]. split; simpl; [exact W1|].
      destruct (Config.enabled (wakeword_config a)) eqn:En.
      - destruct W2 as (d0 & E0 & Hd). rewrite D in E0. injection E0 as <-.
        exists d'. split; [reflexivity|].
        pose proof (proj2 (process_audio_returns d chunk Hd)) as Hn.
        rewrite P in Hn. exact Hn.
      - rewrite D in W2. discriminate. }
    destruct r as [[[|c w]|]|e|]; simpl; auto.
    + right. split; [reflexivity|]. split; [reflexivity|].
      exists d, (String c w). split; [reflexivity|].
      split; [rewrite P; reflexivity|discriminate].
    + left. apply run_finally_state. exact W'.
  - left. apply run_finally_state. exact W.
Qed.

End AssistantTransitions.

Section AssistantClaims.

Import VoiceAssistant.
Context {M : Type} `{Model.Classifier M}.

(** C3, amended. In every state the program can be in, an event that takes
    the state out of [LISTENING] takes it to [ACTIVATED] and is the detection
    of a wake phrase or the start of [run] with detection disabled; an event
    that takes it from [ACTIVATED] or [RESPONDING] to [LISTENING] is the
    timeout firing (from [ACTIVATED]), a call of [shutdown], or the end of a
    session that raised an error; and the state moves between [ACTIVATED] and
    [RESPONDING] only when a receive task handles a server message. *)
Theorem session_transitions (s s' : system M) (ev : event) :
  reachable s -> step s ev = Some s' ->
  (_state (va s) = LISTENING ->
     _state (va s') = LISTENING \/
     (_state (va s') = ACTIVATED /\ (wake_detected s ev \/ wake_disabled s ev))) /\
  (_state (va s) <> LISTENING -> _state (va s') = LISTENING ->
     watchdog_timeout s ev \/ explicit_shutdown s ev \/ session_error s ev) /\
  (_state (va s) <> LISTENING -> _state (va s') <> LISTENING ->
     _state (va s') <> _state (va s) -> server_message s ev).
Proof.
  intros Re E. pose proof (reachable_invariant s Re) as [W Im].
  destruct ev.
  - (* ERun *)
    simpl in E. destruct (main s) eqn:Hm; try discriminate.
    pose proof (run_enter_state (va s) now W Im) as St.
    destruct (run_enter (va s) now) as [a' pc]. injection E as <-. simpl in *.
    repeat split; try congruence. intros _.
    destruct St as [L|[A En]]; [left; exact L|right].
    split; [exact A|]. right. exists now. repeat split; assumption.
  - (* EWakeChunk *)
    simpl in E. destruct (main s) eqn:Hm; try discriminate.
    pose proof (listen_chunk_state (va s) chunk now W Im) as St.
    destruct (_listen_for_wakeword_chunk (va s) chunk now) as [a' pc]. injection E as <-.
    simpl in *. repeat split; try congruence. intros _.
    destruct St as [L|(A & R & d & w & D & P & Nw)]; [left; exact L|right].
    split; [exact A|]. left. exists chunk, now, d, w. repeat split; assumption.
  - (* EWakeEnd *)
    simpl in E. destruct (main s) eqn:Hm; try discriminate.
    injection E as <-. simpl.
    pose proof (run_finally_state (va s) W) as L. simpl in L.
    repeat split; try congruence. intros _. left. exact L.
  - (* EWakeError *)
    simpl in E. destruct (main s) eqn:Hm; try discriminate.
    injection E as <-. simpl.
    pose proof (run_finally_state _ (print_well_formed (va s) (P_error e) W)) as L.
    simpl in L. repeat split; try congruence. intros _. left. exact L.
  - (* EConnected *)
    simpl in E. destruct (main s) eqn:Hm; try discriminate.
    injection E as <-. simpl. repeat split; try congruence.
    intros L. left. exact L.
  - (* EConnectError *)
    simpl in E. destruct (main s) eqn:Hm; try discriminate.
    destruct (session_leave_well_formed (va s) (Some e) W) as [W' S'].
    pose proof (run_after_session_state _ now W' S') as L.
    destruct (run_after_session (_run_session_leave (va s) (Some e)) now) as [a' pc].
    injection E as <-. simpl in *. repeat split; try congruence.
    + intros _. left. exact L.
    + intros _ _. right. right. left. exists e, now. split; [reflexivity|exact Hm].
  - (* EGather *)
    simpl in E. destruct (main s) eqn:Hm; try discriminate.
    assert (Ev : va s' = va s).
    { destruct (first_exception (current s));
        [|destruct (forallb task_finished (current s)); [|discriminate]];
        injection E as <-; reflexivity. }
    rewrite Ev. repeat split; try congruence. intros L. left. exact L.
  - (* EClosed *)
    simpl in E. destruct (main s) eqn:Hm; try discriminate.
    set (e := match close_err with Some e' => Some e' | None => err end) in E.
    destruct (session_leave_well_formed (va s) e W) as [W' S'].
    pose proof (run_after_session_state _ now W' S') as L.
    destruct (run_after_session (_run_session_leave (va s) e) now) as [a' pc].
    injection E as <-. simpl in *. repeat split; try congruence.
    + intros _. left. exact L.
    + intros N _. right. right. right. exists close_err, err, now.
      split; [reflexivity|]. split; [exact Hm|].
      right. intros ->. apply N, Im. reflexivity.
  - (* ETask *)
    assert (E' : resume_task s zombie i ev = Some s').
    { unfold step in E. destruct (main s); exact E. }
    clear E. unfold resume_task in E'.
    destruct (nth_error (if zombie then zombies s else current s) i)
      as [pc|] eqn:N; [|discriminate].
    destruct (task_step (va s) pc ev) as [[a' pc']|] eqn:T; [|discriminate].
    assert (Ev : va s' = a') by (destruct zombie; injection E' as <-; reflexivity).
    rewrite Ev.
    destruct (task_step_effect _ _ _ _ _ T) as (_ & _ & _ & _ & _ & L & _ & Ch).
    repeat split.
    + intros S. left. apply L, S.
    + intros Na La.
      destruct Ch as [(_ & _ & _ & _ & F)|(-> & now & -> & A & Le & _)];
        [congruence|contradiction|].
      left. exists zombie, i, now. repeat split; assumption.
    + intros Na Nb Ne.
      destruct (Ch Ne) as [(-> & (r & now & ->) & R & _)|(_ & now & _ & _ & _ & F)];
        [|contradiction].
      exists zombie, i, r, now. repeat split; assumption.
  - (* EShutdown *)
    assert (E' : va s' = shutdown (va s)).
    { unfold step in E. destruct (main s); injection E as <-; reflexivity. }
    rewrite E', shutdown_state. destruct (_running (va s)) eqn:R.
    + repeat split; try congruence.
      * intros _. left. reflexivity.
      * intros _ _. right. left. split; [reflexivity|exact R].
    + repeat split; try congruence. intros L. left. exact L.
Qed.

End AssistantClaims.

Section Watchdog.

Import VoiceAssistant.
Context {M : Type} `{Model.Classifier M}.

Lemma inject_succ (n : nat) :
  (inject_Z (Z.of_nat (S n)) == inject_Z (Z.of_nat n) + 1)%Q.
Proof.
  rewrite Nat2Z.inj_succ. unfold Z.succ. rewrite inject_Z_plus. reflexivity.
Qed.

Lemma poll_fires (a : t M) (now : Q) :
  _state a = ACTIVATED ->
  Qle_bool (Config.timeout (wakeword_config a)) (now - _last_activity_time a) = true ->
  task_step a WdSleep (Tick now) =
    Some (set_state (print P_timeout_fired a) LISTENING, WdFinished).
Proof. intros A Q. simpl. rewrite A. simpl. rewrite Q. reflexivity. Qed.

Lemma poll_sleeps (a : t M) (now : Q) :
  _running a = true -> _state a = ACTIVATED ->
  Qle_bool (Config.timeout (wakeword_config a)) (now - _last_activity_time a) = false ->
  task_step a WdSleep (Tick now) = Some (a, WdSleep).
Proof.
  intros R A Q. simpl. unfold session_live. rewrite A, R. simpl. rewrite Q.
  reflexivity.
Qed.

(** A watchdog asleep at [t0], not after the deadline, with the state
    [ACTIVATED] and the activity clock at rest: polling every second, it
    fires at the first wake-up at or past the deadline. *)
Lemma watchdog_stall (n : nat) (a : t M) :
  forall t0 : Q,
    _running a = true -> _state a = ACTIVATED ->
    (t0 <= _last_activity_time a + Config.timeout (wakeword_config a))%Q ->
    (_last_activity_time a + Config.timeout (wakeword_config a)
       <= t0 + inject_Z (Z.of_nat n))%Q ->
    exists k : nat,
      task_steps a WdSleep (polls t0 (S k)) =
        Some (set_state (print P_timeout_fired a) LISTENING, WdFinished) /\
      (_last_activity_time a + Config.timeout (wakeword_config a)
         <= t0 + inject_Z (Z.of_nat (S k)))%Q /\
      (t0 + inject_Z (Z.of_nat (S k))
         <= _last_activity_time a + Config.timeout (wakeword_config a) + 1)%Q /\
      forall j, j <= k -> task_steps a WdSleep (polls t0 j) = Some (a, WdSleep).
Proof.
  induction n as [|n IH]; intros t0 R A Lo Hi;
    destruct (Qle_bool (Config.timeout (wakeword_config a))
                       (t0 + 1 - _last_activity_time a)) eqn:Q.
  1, 3: exists 0; split; [|split; [|split]].
  1, 5: cbn [polls task_steps]; rewrite (poll_fires a _ A Q); reflexivity.
  1, 4: apply Qle_bool_iff in Q; change (inject_Z (Z.of_nat 1)) with 1%Q; lra.
  1, 3: change (inject_Z (Z.of_nat 1)) with 1%Q; lra.
  1, 2: intros j Hj; replace j with 0 by lia; reflexivity.
  - exfalso. assert (Hlt : ~ (Config.timeout (wakeword_config a)
                               <= t0 + 1 - _last_activity_time a)%Q).
    { intros F. apply Qle_bool_iff in F. congruence. }
    change (inject_Z (Z.of_nat 0)) with 0%Q in Hi. apply Hlt. lra.
  - assert (Hlt : (t0 + 1 - _last_activity_time a
                     < Config.timeout (wakeword_config a))%Q).
    { apply Qnot_le_lt. intros F. apply Qle_bool_iff in F. congruence. }
    pose proof (inject_succ n) as Sn.
    destruct (IH (t0 + 1)%Q R A) as (k & Fire & B1 & B2 & Pre); [lra|lra|].
    exists (S k). pose proof (inject_succ (S k)) as Sk.
    split; [|split; [|split]].
    + cbn [polls task_steps]. rewrite (poll_sleeps a _ R A Q). exact Fire.
    + lra.
    + lra.
    + intros [|j] Hj; [reflexivity|].
      cbn [polls task_steps]. rewrite (poll_sleeps a _ R A Q).
      apply Pre. lia.
Qed.

(** C4. The timeout task changes the assistant only when it finds the state
    [ACTIVATED]; waking up in [RESPONDING] it goes back to sleep.  Asleep at
    [t0], no later than the deadline (last activity plus timeout), with the
    state [ACTIVATED] and the clock at rest, it sets the state to
    [LISTENING] at a wake-up between the deadline and one second after it,
    and not before.  When the running flag is cleared or the state is back to
    [LISTENING], it finishes and leaves the assistant as it is. *)
Theorem watchdog_contract (self : t M) (t0 : Q) (s : system M) :
  (forall pc ev self' pc',
     _check_timeout self pc ev = Some (self', pc') ->
     _state self <> ACTIVATED -> self' = self) /\
  (_running self = true -> _state self = RESPONDING ->
   forall now, _check_timeout self WdSleep (Tick now) = Some (self, WdSleep)) /\
  (_running self = true -> _state self = ACTIVATED ->
   (t0 <= _last_activity_time self + Config.timeout (wakeword_config self))%Q ->
   exists k : nat,
     task_steps self WdSleep (polls t0 (S k)) =
       Some (set_state (print P_timeout_fired self) LISTENING, WdFinished) /\
     (_last_activity_time self + Config.timeout (wakeword_config self)
        <= t0 + inject_Z (Z.of_nat (S k)))%Q /\
     (t0 + inject_Z (Z.of_nat (S k))
        <= _last_activity_time self + Config.timeout (wakeword_config self) + 1)%Q /\
     forall j, j <= k ->
       task_steps self WdSleep (polls t0 j) = Some (self, WdSleep)) /\
  (reachable s ->
   _running (va s) = false \/ _state (va s) = LISTENING ->
   _check_timeout (va s) WdNew TaskStart = Some (va s, WdFinished) /\
   forall now, _check_timeout (va s) WdSleep (Tick now) = Some (va s, WdFinished)).
Proof.
  split; [|split; [|split]].
  - intros pc ev self' pc' E N. unfold _check_timeout in E.
    destruct pc, ev; try discriminate.
    + injection E as <- _. reflexivity.
    + destruct (state_eqb (_state self) ACTIVATED) eqn:A.
      * apply state_eqb_eq in A. contradiction.
      * injection E as <- _. reflexivity.
  - intros R S now. unfold _check_timeout, session_live. rewrite S, R.
    reflexivity.
  - intros R A Lo.
    set (deadline := (_last_activity_time self
                      + Config.timeout (wakeword_config self))%Q) in *.
    assert (C : (0 <= Qceiling (deadline - t0))%Z).
    { rewrite Zle_Qle. pose proof (Qle_ceiling (deadline - t0)).
      change (inject_Z 0) with 0%Q. lra. }
    apply (watchdog_stall (Z.to_nat (Qceiling (deadline - t0))) self t0 R A Lo).
    rewrite Z2Nat.id by exact C.
    pose proof (Qle_ceiling (deadline - t0)). fold deadline. lra.
  - intros Re Stop.
    assert (L : _state (va s) = LISTENING).
    { destruct Stop as [R|L]; [|exact L].
      exact (proj1 (proj1 (proj1 (reachable_invariant s Re)) R)). }
    unfold _check_timeout, session_live. rewrite L. simpl.
    rewrite andb_false_r. split; reflexivity.
Qed.

(** C5. [shutdown] on a stopped assistant changes nothing; [shutdown] twice
    is [shutdown] once; after [shutdown] on a running assistant the running
    flag is clear, the state is [LISTENING] and both audio devices are
    released, and so it is after one or two calls in every state the program
    can be in. *)
Theorem shutdown_idempotent (self : t M) (s : system M) :
  (_running self = false -> shutdown self = self) /\
  shutdown (shutdown self) = shutdown self /\
  (_running self = true ->
   _running (shutdown self) = false /\
   _state (shutdown self) = LISTENING /\
   Audio.capture_started (_capture (shutdown self)) = false /\
   Audio.player_started (_player (shutdown self)) = false) /\
  (reachable s ->
   shutdown (shutdown (va s)) = shutdown (va s) /\
   _running (shutdown (va s)) = false /\
   _state (shutdown (va s)) = LISTENING /\
   Audio.capture_started (_capture (shutdown (va s))) = false /\
   Audio.player_started (_player (shutdown (va s))) = false).
Proof.
  assert (Idem : forall a : t M, shutdown (shutdown a) = shutdown a).
  { intros a. unfold shutdown. destruct (_running a) eqn:R; simpl;
      [reflexivity|rewrite R; reflexivity]. }
  split; [|split; [|split]].
  - intros R. unfold shutdown. rewrite R. reflexivity.
  - apply Idem.
  - intros R. unfold shutdown. rewrite R. simpl. repeat split.
  - intros Re. split; [apply Idem|].
    destruct (shutdown_well_formed (va s) (proj1 (reachable_invariant s Re)))
      as ([W1 _] & S & R).
    destruct (W1 R) as (_ & C & P). repeat split; assumption.
Qed.

End Watchdog.

Section SessionErrors.

Import VoiceAssistant.
Context {M : Type} `{Model.Classifier M}.

Lemma step_task (s : system M) (zombie : bool) (i : nat) (ev : task_event) :
  step s (ETask zombie i ev) = resume_task s zombie i ev.
Proof. unfold step. destruct (main s); reflexivity. Qed.

Lemma session_leave_recovers (a : t M) (e : exn) (now : Q) :
  well_formed a ->
  (exists more,
     stdout (fst (run_after_session (_run_session_leave a (Some e)) now)) =
       stdout a ++ P_session_error e :: more) /\
  _state (fst (run_after_session (_run_session_leave a (Some e)) now)) = LISTENING /\
  snd (run_after_session (_run_session_leave a (Some e)) now) =
    (if Config.enabled (wakeword_config a) && _running a
     then MainWake else MainDone).
Proof.
  intros [W1 W2].
  unfold run_after_session, _run_session_leave, run_loop, _listen_for_wakeword_enter,
    run_finally, shutdown. simpl.
  destruct (Config.enabled (wakeword_config a)) eqn:En; simpl;
    destruct (_running a) eqn:R; simpl.
  - destruct W2 as (d & -> & _). simpl. repeat split.
    exists [P_listening]. rewrite <- app_assoc. reflexivity.
  - repeat split. exists []. reflexivity.
  - repeat split. exists [P_shutting_down]. rewrite <- app_assoc. reflexivity.
  - repeat split. exists []. reflexivity.
Qed.

(** C9, amended. In every state the program can be in: an error raised by
    opening the session, or one that leaves the session body or its closing,
    is caught by [_run_session] and printed, the state is [LISTENING], and
    [run] is back at wake listening when detection is enabled and the
    assistant still runs, and returns otherwise; an error of the send
    pipeline ends the send task and reaches [_run_session] through [gather];
    an error in the receive loop is caught there, printed while the assistant
    runs, and ends the receive task only; no exception leaves [run].  Without
    a credential [__init__] raises [ValueError], so there is no assistant to
    run. *)
Theorem session_errors_contained (s : system M) :
  reachable s ->
  (forall e now, main s = MainConnect ->
     exists s', step s (EConnectError e now) = Some s' /\ recovered s s' e) /\
  (forall err close_err now e, main s = MainClosing err ->
     match close_err with Some e' => Some e' | None => err end = Some e ->
     exists s', step s (EClosed close_err now) = Some s' /\ recovered s s' e) /\
  (forall i e, nth_error (current s) i = Some SendWaitSend ->
     exists s', step s (ETask false i (SendError e)) = Some s' /\
                va s' = va s /\ main s' = main s /\
                nth_error (current s') i = Some (SendRaised e)) /\
  (forall e, main s = MainGather -> first_exception (current s) = Some e ->
     step s EGather =
       Some (mkSystem (va s) (MainClosing (Some e)) (current s) (zombies s))) /\
  (forall i e, nth_error (current s) i = Some RecvWait ->
     exists s', step s (ETask false i (ReceiveError e)) = Some s' /\
                main s' = main s /\
                nth_error (current s') i = Some RecvFinished /\
                stdout (va s') =
                  stdout (va s) ++
                  (if _running (va s) then [P_receive_error e] else [])) /\
  (forall e, main s <> MainRaised e) /\
  (forall ac gc wc,
     __init__ (M := M) None ac gc wc =
       Raised (ValueError "GEMINI_API_KEY environment variable not set") /\
     __init__ (M := M) (Some EmptyString) ac gc wc =
       Raised (ValueError "GEMINI_API_KEY environment variable not set")).
Proof.
  intros Re. pose proof (reachable_invariant s Re) as [W Im].
  split; [|split; [|split; [|split; [|split; [|split]]]]].
  - intros e now Hm. unfold step. rewrite Hm.
    destruct (session_leave_recovers (va s) e now W) as (Out & St & Pc).
    destruct (run_after_session (_run_session_leave (va s) (Some e)) now) as [a' pc].
    eexists. split; [reflexivity|]. split; [|split]; assumption.
  - intros err close_err now e Hm Ee. unfold step. rewrite Hm, Ee.
    destruct (session_leave_recovers (va s) e now W) as (Out & St & Pc).
    destruct (run_after_session (_run_session_leave (va s) (Some e)) now) as [a' pc].
    eexists. split; [reflexivity|]. split; [|split]; assumption.
  - intros i e N. rewrite step_task. unfold resume_task. rewrite N. simpl.
    eexists. split; [reflexivity|]. simpl. repeat split.
    rewrite (update_nth_lookup _ i i _ _ N), Nat.eqb_refl. reflexivity.
  - intros e Hm Fe. unfold step. rewrite Hm, Fe. reflexivity.
  - intros i e N. rewrite step_task. unfold resume_task. rewrite N. simpl.
    eexists. split; [reflexivity|]. simpl. split; [reflexivity|]. split.
    + rewrite (update_nth_lookup _ i i _ _ N), Nat.eqb_refl. reflexivity.
    + destruct (_running (va s)); simpl; [reflexivity|].
      rewrite app_nil_r. reflexivity.
  - intros e Hm. rewrite Hm in Im. exact Im.
  - intros ac gc wc. split; reflexivity.
Qed.

End SessionErrors.



Section AssistantWitnesses.

Import VoiceAssistant Examples AssistantExamples.
Existing Instance calm_classifier.
Existing Instance hey_x_classifier.

Example hey_x_assistant_built :
  __init__ (Some "key"%string) None None None = Returned hey_x_assistant.
Proof. reflexivity. Qed.

Example plain_assistant_built :
  __init__ (Some "key"%string) None None (Some no_wake) = Returned plain_assistant.
Proof. reflexivity. Qed.

Lemma after_reachable_hey_x (evs : list event) :
  steps (boot hey_x_assistant) evs <> None ->
  reachable (after hey_x_assistant evs).
Proof.
  intros N. exists (Some "key"%string), None, None, None, hey_x_assistant, evs.
  split; [reflexivity|]. unfold after.
  destruct (steps (boot hey_x_assistant) evs); [reflexivity|contradiction].
Qed.

Lemma after_reachable_plain (evs : list event) :
  steps (boot plain_assistant) evs <> None ->
  reachable (after plain_assistant evs).
Proof.
  intros N.
  exists (Some "key"%string), None, None, (Some no_wake), plain_assistant, evs.
  split; [reflexivity|]. unfold after.
  destruct (steps (boot plain_assistant) evs); [reflexivity|contradiction].
Qed.

(** The wake phrase is detected on the second frame of the chunk. *)
Lemma session_transitions_witness :
  let s := after hey_x_assistant [ERun 0%Q] in
  let ev := EWakeChunk (silence 5120) 1%Q in
  let s' := after hey_x_assistant [ERun 0%Q; EWakeChunk (silence 5120) 1%Q] in
  (_state (va s) = LISTENING ->
     _state (va s') = LISTENING \/
     (_state (va s') = ACTIVATED /\ (wake_detected s ev \/ wake_disabled s ev))) /\
  (_state (va s) <> LISTENING -> _state (va s') = LISTENING ->
     watchdog_timeout s ev \/ explicit_shutdown s ev \/ session_error s ev) /\
  (_state (va s) <> LISTENING -> _state (va s') <> LISTENING ->
     _state (va s') <> _state (va s) -> server_message s ev).
Proof.
  apply session_transitions.
  - apply after_reachable_hey_x. vm_compute. discriminate.
  - vm_compute. reflexivity.
Defined.

(** C3 as stated fails: with detection disabled and the session open, a
    failing [connect] takes the state from [ACTIVATED] to [LISTENING]; it is
    neither the watchdog nor [shutdown]. *)
Lemma connect_error_returns_to_listening :
  let s := after plain_assistant [ERun 0%Q] in
  let ev := EConnectError (Exception "connection refused") 1%Q in
  reachable s /\
  _state (va s) = ACTIVATED /\
  (exists s', step s ev = Some s' /\ _state (va s') = LISTENING) /\
  ~ watchdog_timeout s ev /\ ~ explicit_shutdown s ev.
Proof.
  split; [|split; [|split; [|split]]].
  - apply after_reachable_plain. vm_compute. discriminate.
  - reflexivity.
  - eexists. split; [vm_compute; reflexivity|reflexivity].
  - intros (zombie & i & now & E & _). discriminate E.
  - intros [E _]. discriminate E.
Qed.

(** A session open since 0 with a 30 s timeout, and a watchdog asleep at
    0.5: it fires within a second of the deadline. *)
Lemma watchdog_contract_witness :
  let self := va (after plain_assistant [ERun 0%Q; EConnected]) in
  exists k : nat,
    task_steps self WdSleep (polls (1 # 2) (S k)) =
      Some (set_state (print P_timeout_fired self) LISTENING, WdFinished) /\
    (_last_activity_time self + Config.timeout (wakeword_config self)
       <= (1 # 2) + inject_Z (Z.of_nat (S k)))%Q /\
    ((1 # 2) + inject_Z (Z.of_nat (S k))
       <= _last_activity_time self + Config.timeout (wakeword_config self) + 1)%Q /\
    forall j, j <= k ->
      task_steps self WdSleep (polls (1 # 2) j) = Some (self, WdSleep).
Proof.
  intros self.
  destruct (watchdog_contract self (1 # 2) (boot plain_assistant))
    as (_ & _ & Stall & _).
  apply Stall.
  - reflexivity.
  - reflexivity.
  - vm_compute. discriminate.
Defined.

(** The same watchdog, evaluated: asleep after 29 polls, fired at the 30th,
    at 30.5 s. *)
Example watchdog_fires_at_30_5 :
  let self := va (after plain_assistant [ERun 0%Q; EConnected]) in
  task_steps self WdSleep (polls (1 # 2) 29) = Some (self, WdSleep) /\
  task_steps self WdSleep (polls (1 # 2) 30) =
    Some (set_state (print P_timeout_fired self) LISTENING, WdFinished).
Proof. split; vm_compute; reflexivity. Qed.

Lemma shutdown_idempotent_witness :
  let self := va (after plain_assistant [ERun 0%Q; EConnected]) in
  _running self = true /\
  shutdown (shutdown self) = shutdown self /\
  _running (shutdown self) = false /\
  _state (shutdown self) = LISTENING /\
  Audio.capture_started (_capture (shutdown self)) = false /\
  Audio.player_started (_player (shutdown self)) = false.
Proof.
  intros self.
  destruct (shutdown_idempotent self (boot plain_assistant))
    as (_ & Idem & Run & _).
  split; [reflexivity|]. split; [exact Idem|]. apply Run. reflexivity.
Defined.

Lemma session_errors_contained_witness :
  let s := after hey_x_assistant [ERun 0%Q; EWakeChunk (silence 5120) 1%Q] in
  exists s',
    step s (EConnectError (Exception "connection refused") 2%Q) = Some s' /\
    recovered s s' (Exception "connection refused").
Proof.
  intros s.
  assert (Re : reachable s).
  { apply after_reachable_hey_x. vm_compute. discriminate. }
  destruct (session_errors_contained s Re) as (Connect & _).
  apply Connect. reflexivity.
Defined.

(** C9 as stated fails.  After an error in the receive loop the state is
    still [RESPONDING] and [run] still waits in [gather], also once the
    watchdog has polled past the timeout.  A receive error that arrives after
    [shutdown] is not printed.  And with detection disabled, [run] returns
    after a failed session instead of going back to wake listening. *)
Lemma receive_error_leaves_session_open :
  let s := after hey_x_assistant receive_failure in
  let quiet := after hey_x_assistant receive_failure_after_shutdown in
  let once := after plain_assistant
                [ERun 0%Q; EConnectError (Exception "connection refused") 1%Q] in
  (reachable s /\
   In (P_receive_error (Exception "connection lost")) (stdout (va s)) /\
   nth_error (current s) 1 = Some RecvFinished /\
   _state (va s) = RESPONDING /\
   main s = MainGather) /\
  (reachable quiet /\
   nth_error (current quiet) 1 = Some RecvFinished /\
   ~ In (P_receive_error (Exception "connection lost")) (stdout (va quiet))) /\
  (reachable once /\
   In (P_session_error (Exception "connection refused")) (stdout (va once)) /\
   main once = MainDone).
Proof.
  split; [|split].
  - split; [|split; [|split; [|split]]].
    + apply after_reachable_hey_x. vm_compute. discriminate.
    + vm_compute. tauto.
    + vm_compute. reflexivity.
    + vm_compute. reflexivity.
    + vm_compute. reflexivity.
  - split; [|split].
    + apply after_reachable_hey_x. vm_compute. discriminate.
    + vm_compute. reflexivity.
    + vm_compute. intuition discriminate.
  - split; [|split].
    + apply after_reachable_plain. vm_compute. discriminate.
    + vm_compute. tauto.
    + vm_compute. reflexivity.
Qed.

End AssistantWitnesses.


(* ================================================================== *)
(** * Further properties of the wake-word detector *)

Section ScoreScan.

Import WakeWordDetector.
Local Open Scope float_scope.

Lemma SFeqb_self (x : SpecFloat.spec_float) :
  SpecFloat.SFeqb x x = false -> x = SpecFloat.S754_nan.
Proof.
  destruct x as [s|s| |s m e]; unfold SpecFloat.SFeqb; simpl;
    try discriminate; try reflexivity.
  - destruct s; discriminate.
  - destruct s; rewrite Z.compare_refl;
      change (PosDef.Pos.compare_cont Eq m m) with (Pos.compare m m);
      rewrite Pos.compare_refl; discriminate.
Qed.

Lemma nan_spec (x : float) :
  is_nan x = true -> Prim2SF x = SpecFloat.S754_nan.
Proof.
  unfold is_nan. intros E. apply negb_true_iff in E.
  rewrite FloatAxioms.eqb_spec in E. exact (SFeqb_self _ E).
Qed.

Lemma leb_nan_threshold (th score : float) :
  is_nan th = true -> (th <=? score) = false.
Proof.
  intros E. rewrite FloatAxioms.leb_spec, (nan_spec th E). reflexivity.
Qed.

Lemma leb_nan_score (th score : float) :
  is_nan score = true -> (th <=? score) = false.
Proof.
  intros E. rewrite FloatAxioms.leb_spec, (nan_spec score E).
  destruct (Prim2SF th) as [s|s| |s m e]; reflexivity.
Qed.

(** The tie-break of lines 75-78: the label returned is the first one, in
    the iteration order of the prediction, whose score is at or over the
    threshold, whatever the later labels score; and no label is returned
    exactly when no score is. *)
Theorem first_over_first (th : float) (items : list (string * float)) :
  (forall w,
     first_over th items = Some w <->
     exists before s after,
       items = before ++ (w, s) :: after /\
       (th <=? s) = true /\
       Forall (fun c => (th <=? snd c) = false) before) /\
  (first_over th items = None <->
   Forall (fun c => (th <=? snd c) = false) items).
Proof.
  induction items as [|[w0 s0] rest [IHs IHn]]; simpl.
  - split; [intros w; split|split]; try discriminate; auto.
    intros (before & s & after & E & _). destruct before; discriminate.
  - destruct (th <=? s0) eqn:L.
    + split; [intros w; split|split].
      * intros E. injection E as <-. exists [], s0, rest. auto.
      * intros (before & s & after & E & Ls & Fb).
        destruct before as [|[w1 s1] before].
        -- injection E as -> _ _. reflexivity.
        -- injection E as -> -> _. inversion Fb as [|? ? F1 _].
           simpl in F1. congruence.
      * discriminate.
      * intros F. inversion F as [|? ? F1 _]. simpl in F1. congruence.
    + split; [intros w; split|split].
      * intros E. apply IHs in E as (before & s & after & -> & Ls & Fb).
        exists ((w0, s0) :: before), s, after. auto.
      * intros (before & s & after & E & Ls & Fb). apply IHs.
        destruct before as [|[w1 s1] before].
        -- injection E as -> -> _. congruence.
        -- injection E as _ _ ->. inversion Fb. exists before, s, after. auto.
      * intros E. constructor; [exact L|apply IHn, E].
      * intros F. inversion F. apply IHn. assumption.
Qed.

(** A NaN never detects: with a NaN threshold no prediction gives a label,
    and labels with a NaN score are passed over. *)
Theorem nan_never_detects (th : float) (items : list (string * float)) :
  (is_nan th = true -> first_over th items = None) /\
  (forall skipped,
     Forall (fun c => is_nan (snd c) = true) skipped ->
     first_over th (skipped ++ items) = first_over th items).
Proof.
  split.
  - intros E. induction items as [|[w s] rest IH]; simpl; [reflexivity|].
    rewrite (leb_nan_threshold th s E). exact IH.
  - induction 1 as [|[w s] skipped Hs _ IH]; simpl; [reflexivity|].
    simpl in Hs. rewrite (leb_nan_score th s Hs). exact IH.
Qed.

End ScoreScan.

Section Chunking.

Import WakeWordDetector.
Context {M : Type} `{Model.Classifier M}.

Lemma spec_scan_app (th : float) (first second : list (list Z)) (m : M) :
  spec_scan th m (first ++ second) =
    (let '(m1, calls1, r1) := spec_scan th m first in
     match r1 with
     | Some w => (m1, calls1, Some w)
     | None =>
         let '(m2, calls2, r2) := spec_scan th m1 second in
         (m2, calls1 ++ calls2, r2)
     end).
Proof.
  revert m. induction first as [|f rest IH]; intros m; simpl.
  - destruct (spec_scan th m second) as [[m2 calls2] r2]. reflexivity.
  - destruct (Model.predict m f) as [m' p].
    destruct (first_over th p) as [w|]; [reflexivity|].
    rewrite IH. destruct (spec_scan th m' rest) as [[m1 calls1] [w|]];
      [reflexivity|].
    destruct (spec_scan th m1 second) as [[m2 calls2] r2]. reflexivity.
Qed.

Lemma concat_spec_frames (n : nat) (s : list Z) :
  0 < n -> concat (spec_frames n s) ++ spec_pending n s = s.
Proof.
  intros Hn. remember (length s) as len eqn:E.
  revert s E. induction len as [len IH] using lt_wf_ind. intros s E.
  destruct (Nat.lt_ge_cases (length s) n) as [L|L].
  - destruct (spec_frames_short n s L) as [-> ->]. reflexivity.
  - destruct (spec_frames_step n s Hn L) as [-> ->]. simpl.
    rewrite <- app_assoc.
    rewrite (IH (length (skipn n s))) by (rewrite ?length_skipn; lia || reflexivity).
    apply firstn_skipn.
Qed.

(** What [process_audio] does with the concatenation of two chunks of whole
    samples, in terms of what it does with the first. *)
Lemma process_audio_app (d : t M) (c1 c2 : list byte) (s1 s2 : list Z) :
  0 < _chunk_samples d ->
  frombuffer c1 = Some s1 -> frombuffer c2 = Some s2 ->
  process_audio d (c1 ++ c2) =
    (let '(d1, calls1, r1) := process_audio d c1 in
     match r1 with
     | Returned None =>
         let '(d2, calls2, r2) := process_audio d1 c2 in
         (d2, calls1 ++ calls2, r2)
     | _ => (d1, calls1, r1)
     end).
Proof.
  intros Hn E1 E2.
  rewrite (process_audio_scan d (c1 ++ c2) (s1 ++ s2) Hn
             (frombuffer_app c1 c2 s1 s2 E1 E2)).
  rewrite (process_audio_scan d c1 s1 Hn E1).
  rewrite app_assoc.
  destruct (spec_frames_app (_chunk_samples d) (_buffer d ++ s1) s2 Hn)
    as [-> ->].
  rewrite spec_scan_app.
  destruct (spec_scan (threshold d) (model d)
              (spec_frames (_chunk_samples d) (_buffer d ++ s1)))
    as [[m1 calls1] [w|]]; [reflexivity|].
  rewrite process_audio_scan with (samples := s2); simpl; auto.
  destruct (spec_scan _ _ _) as [[m2 calls2] [w|]]; reflexivity.
Qed.


(** A detection discards the rest of the chunk: when the call on a chunk
    returns a label, the call on that chunk followed by any further whole
    samples returns the same label after the same frames and leaves the same
    detector, with nothing pending. *)
Theorem detection_discards_rest (d d1 : t M) (c1 c2 : list byte)
    (calls1 : list call) (w : string) :
  _chunk_samples d = 1280 ->
  Nat.even (length c2) = true ->
  process_audio d c1 = (d1, calls1, Returned (Some w)) ->
  process_audio d (c1 ++ c2) = (d1, calls1, Returned (Some w)) /\
  _buffer d1 = [].
Proof.
  intros Hn Ev2 P1.
  destruct (frombuffer c1) as [s1|] eqn:E1.
  - destruct (frombuffer_even c2 Ev2) as [s2 E2].
    rewrite (process_audio_app d c1 c2 s1 s2) by (assumption || lia).
    rewrite P1. split; [reflexivity|].
    rewrite (process_audio_scan d c1 s1) in P1 by (assumption || lia).
    destruct (spec_scan _ _ _) as [[m1 calls] [w'|]];
      [injection P1 as <- _ _; reflexivity|discriminate P1].
  - unfold process_audio in P1. rewrite E1 in P1. discriminate.
Qed.

(** Samples are neither padded nor lost without a detection: when a call
    returns no detection, the frames it scored followed by what it leaves
    pending are the samples that were pending followed by those of the
    chunk.  When it returns a label, the frames scored are the beginning of
    that sequence, the rest is dropped and nothing stays pending. *)
Theorem samples_conserved (d : t M) (chunk : list byte) (samples : list Z) :
  _chunk_samples d = 1280 ->
  frombuffer chunk = Some samples ->
  let '(d', calls, out) := process_audio d chunk in
  (out = Returned None /\
   concat (map fst calls) ++ _buffer d' = _buffer d ++ samples) \/
  (exists w dropped,
     out = Returned (Some w) /\
     concat (map fst calls) ++ dropped = _buffer d ++ samples /\
     _buffer d' = []).
Proof.
  intros Hn Hs.
  rewrite (process_audio_scan d chunk samples) by (assumption || lia).
  pose proof (concat_spec_frames (_chunk_samples d) (_buffer d ++ samples)) as C.
  pose proof (spec_scan_shape (threshold d)
                (spec_frames (_chunk_samples d) (_buffer d ++ samples))
                (model d)) as Sh.
  destruct (spec_scan _ _ _) as [[m' calls] r].
  destruct Sh as (_ & _ & Hr). destruct r as [w|].
  - right. destruct Hr as (before & f & p & after & H1 & H2 & _).
    exists w, (concat after ++ spec_pending (_chunk_samples d) (_buffer d ++ samples)).
    split; [reflexivity|]. split; [|reflexivity].
    rewrite <- C at 2 by lia. rewrite H1, H2.
    rewrite map_app, !concat_app. simpl. rewrite app_nil_r, <- !app_assoc.
    reflexivity.
  - left. destruct Hr as [H1 _]. split; [reflexivity|].
    simpl. rewrite H1. apply C. lia.
Qed.

(** Smaller chunks are buffered until enough data is available: a chunk that
    does not complete a frame is appended to the pending samples, and the
    classifier is not called; the empty chunk changes nothing. *)
Theorem short_chunk_buffered (d : t M) (chunk : list byte) (samples : list Z) :
  frombuffer chunk = Some samples ->
  length (_buffer d) + length samples < _chunk_samples d ->
  process_audio d chunk = (set_buffer d (_buffer d ++ samples), [], Returned None) /\
  process_audio d [] = (d, [], Returned None).
Proof.
  intros Hs L.
  assert (Short : forall fuel d0, length (_buffer d0) < _chunk_samples d0 ->
                    process_loop fuel d0 = (d0, [], Returned None)).
  { intros fuel d0 L0. destruct fuel; simpl;
      destruct (Nat.leb_spec (_chunk_samples d0) (length (_buffer d0)));
      (lia || reflexivity). }
  split.
  - unfold process_audio. rewrite Hs. apply Short. simpl.
    rewrite length_app. exact L.
  - unfold process_audio. simpl. rewrite Short.
    + destruct d. unfold set_buffer. simpl. rewrite app_nil_r. reflexivity.
    + simpl. rewrite app_nil_r. lia.
Qed.

End Chunking.

Section ModelNames.

Import WakeWordDetector.
Context {M : Type} `{Model.Classifier M}.
Local Open Scope string_scope.

Lemma occurs_app (c : ascii) (a b : string) :
  occurs c (a ++ b) = occurs c a || occurs c b.
Proof.
  induction a as [|x a IH]; simpl; [reflexivity|].
  rewrite IH. apply orb_assoc.
Qed.

Lemma split_on_nonempty (sep : ascii) (s : string) : split_on sep s <> [].
Proof.
  destruct s as [|c r]; simpl; [discriminate|].
  destruct (Ascii.eqb c sep); [discriminate|].
  destruct (split_on sep r); discriminate.
Qed.

Lemma split_on_app (sep : ascii) (a b : string) :
  split_on sep (a ++ String sep b) = (split_on sep a ++ split_on sep b)%list.
Proof.
  induction a as [|c a IH]; simpl.
  - rewrite Ascii.eqb_refl. reflexivity.
  - destruct (Ascii.eqb c sep); rewrite IH; [reflexivity|].
    pose proof (split_on_nonempty sep a) as N.
    destruct (split_on sep a) as [|seg segs]; [contradiction|reflexivity].
Qed.

Lemma split_on_whole (sep : ascii) (s : string) :
  occurs sep s = false -> split_on sep s = [s].
Proof.
  induction s as [|c r IH]; simpl; [reflexivity|].
  intros E. apply orb_false_iff in E as [E1 E2].
  rewrite E1, (IH E2). reflexivity.
Qed.

Lemma split_on_segments (sep : ascii) (s : string) :
  Forall (fun seg => occurs sep seg = false) (split_on sep s).
Proof.
  induction s as [|c r IH]; simpl.
  - constructor; [reflexivity|constructor].
  - destruct (Ascii.eqb c sep) eqn:E.
    + constructor; [reflexivity|exact IH].
    + destruct (split_on sep r) as [|seg segs].
      * constructor; [simpl; rewrite E; reflexivity|constructor].
      * inversion IH as [|? ? Hseg Hsegs]. constructor; [|exact Hsegs].
        simpl. rewrite E, Hseg. reflexivity.
Qed.

Lemma last_app_nonempty {A : Type} (l1 l2 : list A) (d : A) :
  l2 <> [] -> last (l1 ++ l2) d = last l2 d.
Proof.
  intros N. induction l1 as [|x l1 IH]; simpl; [reflexivity|].
  destruct (l1 ++ l2)%list eqn:E; [|exact IH].
  apply app_eq_nil in E as [_ E]. contradiction.
Qed.

Lemma last_Forall {A : Type} (P : A -> Prop) (l : list A) (d : A) :
  Forall P l -> l <> [] -> P (last l d).
Proof.
  induction 1 as [|x l Hx Hl IH]; intros N; [contradiction|].
  destruct l as [|y l]; [exact Hx|]. apply IH. discriminate.
Qed.

Lemma replace_from_drops (c : ascii) (old : string) (s : string) :
  occurs c s = false ->
  forall skip, occurs c (replace_from old EmptyString skip s) = false.
Proof.
  induction s as [|a r IH]; simpl; [reflexivity|].
  intros E. apply orb_false_iff in E as [E1 E2].
  intros [|k]; [|exact (IH E2 k)].
  destruct (match old with
            | EmptyString => true
            | String a0 s1' =>
                if ascii_dec a0 a then String.prefix s1' r else false
            end).
  - simpl. exact (IH E2 _).
  - simpl. rewrite E1. exact (IH E2 0).
Qed.

Lemma replace_onnx_suffix (name : string) :
  occurs "." name = false ->
  replace ".onnx" EmptyString (name ++ ".onnx") = name.
Proof.
  unfold replace. induction name as [|a r IH]; [reflexivity|].
  intros E. cbn [occurs] in E. apply orb_false_iff in E as [E1 E2].
  cbn [String.append replace_from String.prefix].
  destruct (ascii_dec "." a) as [<-|N].
  - discriminate E1.
  - rewrite (IH E2). reflexivity.
Qed.

Lemma model_names_of_path (path : string) (th : float) (fw : string) :
  path <> EmptyString ->
  model_names (__init__ (Some path) th fw) =
    [replace ".onnx" EmptyString (last (split_on "/" path) EmptyString)].
Proof. destruct path; [contradiction|reflexivity]. Qed.

(** The name a detector reports for its model: [hey_jarvis] when no path or
    an empty path is given; otherwise one name, without any [/]; and for a
    path [dir/name.onnx], where [name] has neither [/] nor [.], that
    [name]. *)
Theorem model_name_of_path (th : float) (fw : string) :
  model_names (__init__ None th fw) = ["hey_jarvis"] /\
  model_names (__init__ (Some EmptyString) th fw) = ["hey_jarvis"] /\
  (forall path, path <> EmptyString ->
     exists name,
       model_names (__init__ (Some path) th fw) = [name] /\
       occurs "/" name = false) /\
  (forall dir name,
     occurs "/" name = false -> occurs "." name = false ->
     model_names (__init__ (Some (dir ++ "/" ++ name ++ ".onnx")) th fw) = [name]).
Proof.
  split; [reflexivity|]. split; [reflexivity|]. split.
  - intros path N. rewrite (model_names_of_path path th fw N).
    eexists. split; [reflexivity|]. apply replace_from_drops.
    apply (last_Forall (fun seg => occurs "/" seg = false)).
    + apply split_on_segments.
    + apply split_on_nonempty.
  - intros dir name Hs Hd.
    assert (N : dir ++ "/" ++ name ++ ".onnx" <> EmptyString).
    { destruct dir; discriminate. }
    rewrite (model_names_of_path _ th fw N).
    change (dir ++ "/" ++ name ++ ".onnx")
      with (dir ++ String "/" (name ++ ".onnx")).
    rewrite split_on_app, last_app_nonempty by apply split_on_nonempty.
    rewrite split_on_whole.
    + simpl last. rewrite (replace_onnx_suffix name Hd). reflexivity.
    + rewrite occurs_app, Hs. reflexivity.
Qed.

End ModelNames.

Section DetectorExtrasWitnesses.

Import WakeWordDetector Examples.
Existing Instance calm_classifier.
Existing Instance hey_x_classifier.
Local Open Scope string_scope.

Lemma first_over_first_witness :
  first_over 0.5%float [("a", 0.2%float); ("b", 0.7%float); ("c", 0.9%float)] = Some "b".
Proof.
  apply (proj1 (first_over_first 0.5%float _) "b").
  exists [("a", 0.2%float)], 0.7%float, [("c", 0.9%float)].
  split; [reflexivity|]. split; [reflexivity|].
  constructor; [reflexivity|constructor].
Defined.

Lemma nan_never_detects_witness :
  first_over PrimFloat.nan [("a", 0.9%float)] = None /\
  first_over 0.5%float ([("a", PrimFloat.nan)] ++ [("b", 0.7%float)]) =
    first_over 0.5%float [("b", 0.7%float)].
Proof.
  split.
  - apply (proj1 (nan_never_detects PrimFloat.nan [("a", 0.9%float)])).
    reflexivity.
  - apply (proj2 (nan_never_detects 0.5%float [("b", 0.7%float)])).
    constructor; [reflexivity|constructor].
Defined.


Lemma detection_discards_rest_witness :
  process_audio scripted_hey_x (silence 5120 ++ silence 2560) =
    (fst (fst (process_audio scripted_hey_x (silence 5120))),
     snd (fst (process_audio scripted_hey_x (silence 5120))),
     Returned (Some "hey-x")) /\
  _buffer (fst (fst (process_audio scripted_hey_x (silence 5120)))) = [].
Proof.
  apply (detection_discards_rest scripted_hey_x _ (silence 5120) (silence 2560)).
  - reflexivity.
  - reflexivity.
  - vm_compute. reflexivity.
Defined.

Lemma samples_conserved_witness :
  let '(d', calls, out) := process_audio calm (silence 3000) in
  (out = Returned None /\
   concat (map fst calls) ++ _buffer d' = _buffer calm ++ repeat 0%Z 1500)%list \/
  (exists w dropped,
     out = Returned (Some w) /\
     (concat (map fst calls) ++ dropped = _buffer calm ++ repeat 0%Z 1500)%list /\
     _buffer d' = []).
Proof.
  apply (samples_conserved calm (silence 3000) (repeat 0%Z 1500)).
  - reflexivity.
  - vm_compute. reflexivity.
Defined.

Lemma short_chunk_buffered_witness :
  process_audio calm (silence 100) =
    (set_buffer calm (_buffer calm ++ repeat 0%Z 50), [], Returned None) /\
  process_audio calm [] = (calm, [], Returned None).
Proof.
  apply (short_chunk_buffered calm (silence 100) (repeat 0%Z 50)).
  - vm_compute. reflexivity.
  - vm_compute. lia.
Defined.

Lemma model_name_of_path_witness :
  model_names
    (@__init__ nat calm_classifier
       (Some ("/opt/models" ++ "/" ++ "hey_glados" ++ ".onnx")) 0.5%float "onnx") =
    ["hey_glados"].
Proof.
  destruct (model_name_of_path (M := nat) 0.5%float "onnx") as (_ & _ & _ & Named).
  apply Named; reflexivity.
Defined.

End DetectorExtrasWitnesses.

(* ================================================================== *)
(** * Further properties of the assistant *)

Section StepShapes.

Import VoiceAssistant Session.
Context {M : Type} `{Model.Classifier M}.

(** What an event can be, as the segment of code it resumes. *)
Lemma step_decompose (s s' : system M) (ev : event) :
  step s ev = Some s' ->
  (exists pc tev pc',
     task_step (va s) pc tev = Some (va s', pc') /\ main s' = main s) \/
  (va s' = shutdown (va s) /\ main s' = main s) \/
  (exists now, main s = MainIdle /\ (va s', main s') = run_enter (va s) now) \/
  (exists chunk now,
     main s = MainWake /\
     (va s', main s') = _listen_for_wakeword_chunk (va s) chunk now) \/
  (main s = MainWake /\ (va s', main s') = run_finally (va s)) \/
  (exists e, main s = MainWake /\ (va s', main s') = run_except (va s) e) \/
  (exists e now,
     (main s = MainConnect \/ exists err, main s = MainClosing err) /\
     (va s', main s') = run_after_session (_run_session_leave (va s) e) now) \/
  (main s = MainConnect /\ va s' = print P_connected (va s) /\
   main s' = MainGather) \/
  (main s = MainGather /\ va s' = va s /\ exists err, main s' = MainClosing err).
Proof.
  intros E. destruct ev.
  - simpl in E. destruct (main s) eqn:Hm; try discriminate.
    destruct (run_enter (va s) now) as [a' pc] eqn:R. injection E as <-.
    right. right. left. exists now. simpl. rewrite R. auto.
  - simpl in E. destruct (main s) eqn:Hm; try discriminate.
    destruct (_listen_for_wakeword_chunk (va s) chunk now) as [a' pc] eqn:R.
    injection E as <-. do 3 right. left. exists chunk, now. simpl.
    rewrite R. auto.
  - simpl in E. destruct (main s) eqn:Hm; try discriminate.
    injection E as <-. do 4 right. left. auto.
  - simpl in E. destruct (main s) eqn:Hm; try discriminate.
    injection E as <-. do 5 right. left. exists e. auto.
  - simpl in E. destruct (main s) eqn:Hm; try discriminate.
    injection E as <-. do 7 right. left. auto.
  - simpl in E. destruct (main s) eqn:Hm; try discriminate.
    destruct (run_after_session (_run_session_leave (va s) (Some e)) now)
      as [a' pc] eqn:R.
    injection E as <-. do 6 right. left. exists (Some e), now. simpl.
    rewrite R. auto.
  - simpl in E. destruct (main s) eqn:Hm; try discriminate.
    do 8 right.
    destruct (first_exception (current s)) as [e|].
    + injection E as <-. simpl. eauto.
    + destruct (forallb task_finished (current s)); [|discriminate].
      injection E as <-. simpl. eauto.
  - simpl in E. destruct (main s) eqn:Hm; try discriminate.
    set (e := match close_err with Some e' => Some e' | None => err end) in E.
    destruct (run_after_session (_run_session_leave (va s) e) now)
      as [a' pc] eqn:R.
    injection E as <-. do 6 right. left. exists e, now. simpl.
    rewrite R. eauto.
  - rewrite step_task in E. unfold resume_task in E.
    destruct (nth_error (if zombie then zombies s else current s) i)
      as [pc|]; [|discriminate].
    destruct (task_step (va s) pc ev) as [[a' pc']|] eqn:T; [|discriminate].
    left. exists pc, ev, pc'.
    destruct zombie; injection E as <-; simpl; auto.
  - right. left. unfold step in E.
    destruct (main s); injection E as <-; auto.
Qed.

(** *** The configuration and the detector *)

Lemma detector_init_configured (cfg : Config.WakeWordConfig) :
  let d := WakeWordDetector.__init__ (M := M) (Config.model_path cfg)
             (Config.threshold cfg) (Config.inference_framework cfg) in
  WakeWordDetector.threshold d = Config.threshold cfg /\
  WakeWordDetector._chunk_samples d = 1280 /\
  length (WakeWordDetector._buffer d) < 1280.
Proof.
  destruct (Config.model_path cfg) as [[|c p]|]; simpl; repeat split; lia.
Qed.

Lemma process_audio_kept (d : WakeWordDetector.t M) (chunk : list byte) :
  WakeWordDetector._chunk_samples d = 1280 ->
  length (WakeWordDetector._buffer d) < 1280 ->
  let d' := fst (fst (WakeWordDetector.process_audio d chunk)) in
  WakeWordDetector.threshold d' = WakeWordDetector.threshold d /\
  WakeWordDetector._chunk_samples d' = 1280 /\
  WakeWordDetector.model_names d' = WakeWordDetector.model_names d /\
  length (WakeWordDetector._buffer d') < 1280.
Proof.
  intros Hn Hb. destruct (frombuffer chunk) as [samples|] eqn:Hs.
  - rewrite (process_audio_scan d chunk samples) by (assumption || lia).
    destruct (WakeWordDetector.spec_scan _ _ _) as [[m' calls] [w|]]; simpl;
      repeat split; try assumption; try lia.
    rewrite spec_pending_length, Hn by lia. apply Nat.mod_upper_bound. lia.
  - unfold WakeWordDetector.process_audio. rewrite Hs. simpl. auto.
Qed.

Lemma shutdown_configured (cfg : Config.WakeWordConfig) (a : t M) :
  configured cfg a -> configured cfg (shutdown a).
Proof. unfold shutdown. destruct (_running a); auto. Qed.

Lemma run_finally_configured (cfg : Config.WakeWordConfig) (a : t M) :
  configured cfg a -> configured cfg (fst (run_finally a)).
Proof. apply shutdown_configured. Qed.

Lemma run_loop_configured (cfg : Config.WakeWordConfig) (a : t M) (now : Q) :
  configured cfg a -> configured cfg (fst (run_loop a now)).
Proof.
  intros C. unfold run_loop, _listen_for_wakeword_enter.
  destruct (_running a); [|apply run_finally_configured; exact C].
  destruct (Config.enabled (wakeword_config a)); [|exact C].
  destruct (_wakeword_detector a) as [d|] eqn:D; [|exact C].
  destruct C as [Cc Cd]. split; [exact Cc|]. simpl.
  intros d' E. injection E as <-.
  destruct (Cd d D) as (T & N & Names & _). simpl. repeat split; auto. lia.
Qed.

Lemma run_after_session_configured (cfg : Config.WakeWordConfig) (a : t M)
    (now : Q) :
  configured cfg a -> configured cfg (fst (run_after_session a now)).
Proof.
  intros C. unfold run_after_session.
  destruct (negb _); [apply run_finally_configured|apply run_loop_configured];
    exact C.
Qed.

Lemma session_leave_configured (cfg : Config.WakeWordConfig) (a : t M)
    (err : option exn) :
  configured cfg a -> configured cfg (_run_session_leave a err).
Proof. intros C. unfold _run_session_leave. destruct err; exact C. Qed.

Lemma run_enter_configured (cfg : Config.WakeWordConfig) (a : t M) (now : Q) :
  configured cfg a -> configured cfg (fst (run_enter a now)).
Proof.
  intros C. unfold run_enter.
  destruct (Config.enabled (wakeword_config a)).
  - destruct (_wakeword_detector a) as [d|] eqn:D; [|exact C].
    apply run_loop_configured. destruct C as [Cc Cd]. split; [exact Cc|].
    simpl. exact Cd.
  - apply run_loop_configured. exact C.
Qed.

Lemma listen_chunk_configured (cfg : Config.WakeWordConfig) (a : t M)
    (chunk : list byte) (now : Q) :
  configured cfg a ->
  configured cfg (fst (_listen_for_wakeword_chunk a chunk now)).
Proof.
  intros C. unfold _listen_for_wakeword_chunk.
  destruct (negb (_running a)); [apply run_finally_configured; exact C|].
  destruct (_wakeword_detector a) as [d|] eqn:D;
    [|apply run_finally_configured; exact C].
  destruct C as [Cc Cd]. destruct (Cd d D) as (T & N & Names & B).
  pose proof (process_audio_kept d chunk N B) as K.
  destruct (WakeWordDetector.process_audio d chunk) as [[d' calls] r].
  simpl in K. destruct K as (T' & N' & Names' & B').
  assert (C' : configured cfg (set_detector a (Some d'))).
  { split; [exact Cc|]. simpl. intros d0 E. injection E as <-.
    repeat split; congruence. }
  destruct r as [[[|c w]|]|e|]; simpl; try exact C'.
  apply shutdown_configured. exact C'.
Qed.

Lemma step_configured (cfg : Config.WakeWordConfig) (s s' : system M)
    (ev : event) :
  step s ev = Some s' -> configured cfg (va s) -> configured cfg (va s').
Proof.
  intros E C.
  destruct (step_decompose s s' ev E)
    as [(pc & tev & pc' & T & _)|[(-> & _)|[(now & _ & R)|[(chunk & now & _ & R)
       |[(_ & R)|[(e & _ & R)|[(e & now & _ & R)|[(_ & -> & _)|(_ & -> & _)]]]]]]]];
    try exact C.
  - destruct (task_step_effect _ _ _ _ _ T) as (_ & Cc & Cd & _).
    destruct C as [C1 C2]. split; [congruence|]. rewrite Cd. exact C2.
  - apply shutdown_configured. exact C.
  - replace (va s') with (fst (run_enter (va s) now)) by (rewrite <- R; reflexivity).
    apply run_enter_configured. exact C.
  - replace (va s') with (fst (_listen_for_wakeword_chunk (va s) chunk now))
      by (rewrite <- R; reflexivity).
    apply listen_chunk_configured. exact C.
  - replace (va s') with (fst (run_finally (va s))) by (rewrite <- R; reflexivity).
    apply run_finally_configured. exact C.
  - replace (va s') with (fst (run_except (va s) e)) by (rewrite <- R; reflexivity).
    apply run_finally_configured. exact C.
  - replace (va s')
      with (fst (run_after_session (_run_session_leave (va s) e) now))
      by (rewrite <- R; reflexivity).
    apply run_after_session_configured, session_leave_configured. exact C.
Qed.

Lemma steps_configured (cfg : Config.WakeWordConfig) (evs : list event)
    (s0 s : system M) :
  steps s0 evs = Some s -> configured cfg (va s0) -> configured cfg (va s).
Proof.
  revert s0. induction evs as [|ev rest IH]; intros s0 S C0; simpl in S.
  - injection S as <-. exact C0.
  - destruct (step s0 ev) as [s1|] eqn:E1; [|discriminate].
    exact (IH s1 S (step_configured cfg s0 s1 ev E1 C0)).
Qed.

Lemma boot_configured (key : option string) (ac : option Config.AudioConfig)
    (gc : option Config.GeminiConfig) (wc : option Config.WakeWordConfig)
    (self : t M) :
  __init__ key ac gc wc = Returned self ->
  wakeword_config self = or_default wc Config.WakeWordConfig_default /\
  configured (wakeword_config self) (va (boot self)).
Proof.
  intros I. unfold __init__ in I. destruct (negb (truthy key)); [discriminate|].
  injection I as <-. simpl. split; [reflexivity|]. split; [reflexivity|].
  simpl. intros d E.
  destruct (Config.enabled (or_default wc Config.WakeWordConfig_default));
    [|discriminate].
  injection E as <-.
  destruct (detector_init_configured
              (or_default wc Config.WakeWordConfig_default)) as (T & N & B).
  repeat split; assumption.
Qed.

Lemma reachable_configured (s : system M) :
  reachable s -> configured (wakeword_config (va s)) (va s).
Proof.
  intros (key & ac & gc & wc & self & evs & I & S).
  destruct (boot_configured key ac gc wc self I) as [_ C0].
  pose proof (steps_configured _ evs _ s S C0) as C.
  destruct C as [Cc Cd]. split; [reflexivity|]. rewrite Cc. exact Cd.
Qed.

Lemma step_keeps_config (s s' : system M) (ev : event) :
  reachable s -> step s ev = Some s' ->
  wakeword_config (va s') = wakeword_config (va s).
Proof.
  intros Re E.
  exact (proj1 (step_configured _ s s' ev E (reachable_configured s Re))).
Qed.

(** The assistant keeps the wake-word configuration it was built with, and
    so does its detector: in every state the program reaches, the detector
    compares against the configured threshold, frames by 1280 samples,
    reports the model name of the configured path, and has less than a frame
    pending. *)
Theorem detector_as_configured (key : option string)
    (ac : option Config.AudioConfig) (gc : option Config.GeminiConfig)
    (wc : option Config.WakeWordConfig) (self : t M) (evs : list event)
    (s : system M) :
  __init__ key ac gc wc = Returned self ->
  steps (boot self) evs = Some s ->
  wakeword_config self = or_default wc Config.WakeWordConfig_default /\
  configured (wakeword_config self) (va s).
Proof.
  intros I S.
  destruct (boot_configured key ac gc wc self I) as [E0 C0].
  split; [exact E0|].
  exact (steps_configured (wakeword_config self) evs (boot self) s S C0).
Qed.

End StepShapes.

Section RunBracket.

Import VoiceAssistant Session.
Context {M : Type} `{Model.Classifier M}.

Lemma shutdown_stops (a : t M) : _running (shutdown a) = false.
Proof. unfold shutdown. destruct (_running a) eqn:R; simpl; auto. Qed.

Lemma shutdown_keeps_config (a : t M) :
  wakeword_config (shutdown a) = wakeword_config a.
Proof. unfold shutdown. destruct (_running a); reflexivity. Qed.

Lemma bracket_run_finally (a : t M) (cur zs : list task) :
  run_bracket (mkSystem (fst (run_finally a)) (snd (run_finally a)) cur zs).
Proof.
  split; simpl; [intros _; apply shutdown_stops|discriminate].
Qed.

Lemma bracket_run_loop (a : t M) (now : Q) (cur zs : list task) :
  run_bracket (mkSystem (fst (run_loop a now)) (snd (run_loop a now)) cur zs).
Proof.
  unfold run_loop, _listen_for_wakeword_enter.
  destruct (_running a) eqn:R; [|apply bracket_run_finally].
  destruct (Config.enabled (wakeword_config a)) eqn:En.
  - destruct (_wakeword_detector a); split; simpl;
      try (intros [F|F]; discriminate F); try discriminate; congruence.
  - split; simpl; [intros [F|F]; discriminate F|discriminate].
Qed.

Lemma bracket_run_after_session (a : t M) (now : Q) (cur zs : list task) :
  run_bracket (mkSystem (fst (run_after_session a now))
                        (snd (run_after_session a now)) cur zs).
Proof.
  unfold run_after_session.
  destruct (negb _); [apply bracket_run_finally|apply bracket_run_loop].
Qed.

Lemma bracket_run_enter (a : t M) (now : Q) (cur zs : list task) :
  (Config.enabled (wakeword_config a) = true -> _wakeword_detector a <> None) ->
  run_bracket (mkSystem (fst (run_enter a now)) (snd (run_enter a now)) cur zs).
Proof.
  intros D. unfold run_enter.
  destruct (Config.enabled (wakeword_config a)) eqn:En.
  - destruct (_wakeword_detector a) as [d|]; [apply bracket_run_loop|].
    exfalso. apply D; reflexivity.
  - apply bracket_run_loop.
Qed.

Lemma bracket_listen_chunk (a : t M) (chunk : list byte) (now : Q)
    (cur zs : list task) :
  Config.enabled (wakeword_config a) = true ->
  (forall d, _wakeword_detector a = Some d ->
             WakeWordDetector._chunk_samples d = 1280) ->
  run_bracket (mkSystem (fst (_listen_for_wakeword_chunk a chunk now))
                        (snd (_listen_for_wakeword_chunk a chunk now)) cur zs).
Proof.
  intros En Hn. unfold _listen_for_wakeword_chunk.
  destruct (negb (_running a)); [apply bracket_run_finally|].
  destruct (_wakeword_detector a) as [d|]; [|apply bracket_run_finally].
  destruct (process_audio_returns d chunk (Hn d eq_refl)) as [Out _].
  destruct (WakeWordDetector.process_audio d chunk) as [[d' calls] r].
  simpl in Out.
  destruct r as [[[|c w]|]|e|]; try congruence;
    try apply bracket_run_finally;
    split; simpl; try (intros [F|F]; discriminate F); try discriminate;
    congruence.
Qed.

Lemma step_bracket (s s' : system M) (ev : event) :
  reachable s -> run_bracket s -> step s ev = Some s' -> run_bracket s'.
Proof.
  intros Re B E. pose proof (reachable_invariant s Re) as [[_ W2] _].
  pose proof (step_keeps_config s s' ev Re E) as Cfg.
  destruct B as [B1 B2].
  assert (Ext : forall r : t M * main_pc,
            (va s', main s') = r ->
            run_bracket (mkSystem (fst r) (snd r) [] []) -> run_bracket s').
  { intros r <- Br. exact Br. }
  destruct (step_decompose s s' ev E)
    as [(pc & tev & pc' & T & Em)|[(Ea & Em)|[(now & Hm & R)|[(chunk & now & Hm & R)
       |[(_ & R)|[(e & _ & R)|[(e & now & _ & R)|[(_ & _ & Em)|(_ & _ & err & Em)]]]]]]]].
  - destruct (task_step_effect _ _ _ _ _ T) as (Run & _).
    split; rewrite Em, ?Run, ?Cfg; assumption.
  - split; rewrite Em, ?Cfg; [|exact B2]. intros _. rewrite Ea.
    apply shutdown_stops.
  - apply (Ext _ R). apply bracket_run_enter.
    intros En. rewrite En in W2. destruct W2 as (d & -> & _). discriminate.
  - apply (Ext _ R).
    destruct (Config.enabled (wakeword_config (va s))) eqn:En.
    + apply bracket_listen_chunk; [exact En|].
      destruct W2 as (d & -> & Hn). intros d0 E0. injection E0 as <-. exact Hn.
    + exfalso. apply B2; [reflexivity|exact Hm].
  - apply (Ext _ R), bracket_run_finally.
  - apply (Ext _ R). unfold run_except. apply bracket_run_finally.
  - apply (Ext _ R), bracket_run_after_session.
  - split; rewrite Em; [intros [F|F]; discriminate F|discriminate].
  - split; rewrite Em; [intros [F|F]; discriminate F|discriminate].
Qed.

Lemma reachable_induction (s : system M) (P : system M -> Prop) :
  (forall key ac gc wc self,
     __init__ key ac gc wc = Returned self -> P (boot self)) ->
  (forall s0 s1 ev, reachable s0 -> P s0 -> step s0 ev = Some s1 -> P s1) ->
  reachable s -> P s.
Proof.
  intros Base Step (key & ac & gc & wc & self & evs & I & S).
  assert (G : forall evs s0 s1,
            reachable s0 -> P s0 -> steps s0 evs = Some s1 -> P s1).
  { clear evs S. induction evs as [|ev rest IH]; intros s0 s1 R0 P0 S0;
      simpl in S0.
    - injection S0 as <-. exact P0.
    - destruct (step s0 ev) as [s2|] eqn:E; [|discriminate].
      apply (IH s2 s1); [|exact (Step s0 s2 ev R0 P0 E)|exact S0].
      destruct R0 as (k & a & g & w & self0 & evs0 & I0 & S00).
      exists k, a, g, w, self0, (evs0 ++ [ev])%list. split; [exact I0|].
      clear - S00 E. revert S00. generalize (boot self0).
      induction evs0 as [|e0 r0 IH0]; intros b S00; simpl in *.
      + injection S00 as ->. rewrite E. reflexivity.
      + destruct (step b e0); [apply IH0; exact S00|discriminate]. }
  apply (G evs (boot self) s); [|exact (Base key ac gc wc self I)|exact S].
  exists key, ac, gc, wc, self, []. split; [exact I|reflexivity].
Qed.

Lemma reachable_bracket (s : system M) : reachable s -> run_bracket s.
Proof.
  apply reachable_induction.
  - intros key ac gc wc self I. unfold __init__ in I.
    destruct (negb (truthy key)); [discriminate|]. injection I as <-.
    split; simpl; [reflexivity|discriminate].
  - intros s0 s1 ev R0 B0 E. exact (step_bracket s0 s1 ev R0 B0 E).
Qed.

(** [run] brackets the running flag: before [run] is called and once it has
    returned, however it ended, the running flag is clear, the state is
    [LISTENING] and both audio devices are released. *)
Theorem run_leaves_assistant_stopped (s : system M) :
  reachable s ->
  main s = MainIdle \/ main s = MainDone ->
  _running (va s) = false /\
  _state (va s) = LISTENING /\
  Audio.capture_started (_capture (va s)) = false /\
  Audio.player_started (_player (va s)) = false.
Proof.
  intros Re Hm.
  pose proof (proj1 (reachable_bracket s Re) Hm) as R.
  destruct (reachable_invariant s Re) as [[W1 _] _].
  split; [exact R|exact (W1 R)].
Qed.

(** With wake detection disabled [run] never waits for a wake word, and it
    runs one session: [run] only moves from its start into [connect], from
    there into the session or to its end, from the session to its closing,
    and from the closing to its end. *)
Theorem disabled_runs_one_session (s s' : system M) (ev : event) :
  reachable s ->
  Config.enabled (wakeword_config (va s)) = false ->
  step s ev = Some s' ->
  main s <> MainWake /\
  Config.enabled (wakeword_config (va s')) = false /\
  (main s' = main s \/
   (main s = MainIdle /\ main s' = MainConnect) \/
   (main s = MainConnect /\ (main s' = MainGather \/ main s' = MainDone)) \/
   (main s = MainGather /\ exists err, main s' = MainClosing err) \/
   ((exists err, main s = MainClosing err) /\ main s' = MainDone)).
Proof.
  intros Re En E.
  pose proof (proj2 (reachable_bracket s Re) En) as NW.
  split; [exact NW|]. split; [rewrite (step_keeps_config s s' ev Re E); exact En|].
  destruct (step_decompose s s' ev E)
    as [(pc & tev & pc' & T & Em)|[(Ea & Em)|[(now & Hm & R)|[(chunk & now & Hm & R)
       |[(Hm & R)|[(e & Hm & R)|[(e & now & Hm & R)|[(Hm & _ & Em)|(Hm & _ & err & Em)]]]]]]]].
  - left. exact Em.
  - left. exact Em.
  - right. left. split; [exact Hm|].
    unfold run_enter in R. rewrite En in R. simpl in R.
    unfold run_loop in R. simpl in R. rewrite En in R.
    injection R as _ ->. reflexivity.
  - contradiction.
  - contradiction.
  - contradiction.
  - assert (D : main s' = MainDone).
    { unfold run_after_session, _run_session_leave in R.
      destruct e; simpl in R; rewrite En in R; simpl in R;
        injection R as _ ->; reflexivity. }
    destruct Hm as [Hm|Hm]; [right; right; left|do 4 right]; auto.
  - right. right. left. auto.
  - do 3 right. left. eauto.
Qed.

(** The session body completes without an exception only once the state is
    back to [LISTENING]: when [gather] returns normally, all three tasks have
    finished and the state is [LISTENING]. *)
Theorem gather_returns_in_listening (s s' : system M) :
  reachable s ->
  step s EGather = Some s' ->
  main s' = MainClosing None ->
  _state (va s) = LISTENING /\
  forallb task_finished (current s) = true /\
  first_exception (current s) = None.
Proof.
  intros Re E Hc. pose proof (reachable_invariant s Re) as [_ Im].
  simpl in E. destruct (main s) eqn:Hm; try discriminate.
  destruct Im as [Kinds Done].
  destruct (first_exception (current s)) as [e|] eqn:Fe.
  - injection E as <-. discriminate Hc.
  - destruct (forallb task_finished (current s)) eqn:Fin; [|discriminate].
    split; [|split; reflexivity]. apply Done.
    destruct (current s) as [|k1 [|k2 [|k3 [|k4 rest]]]]; try discriminate.
    simpl in Fin, Kinds. injection Kinds as _ _ K3.
    destruct k3; simpl in *; try discriminate; try reflexivity;
      rewrite ?andb_false_r in Fin; discriminate.
Qed.

(** A chunk with an odd number of bytes during wake listening ends [run]:
    the [ValueError] of [process_audio] is caught by [run] and printed,
    [shutdown] follows, and [run] returns with the assistant stopped. *)
Theorem malformed_chunk_ends_run (s : system M) (chunk : list byte) (now : Q) :
  reachable s ->
  main s = MainWake ->
  _running (va s) = true ->
  Nat.even (length chunk) = false ->
  exists s',
    step s (EWakeChunk chunk now) = Some s' /\
    main s' = MainDone /\
    stdout (va s') = stdout (va s) ++ [P_error frombuffer_error; P_shutting_down] /\
    _wakeword_detector (va s') = _wakeword_detector (va s) /\
    _running (va s') = false /\
    _state (va s') = LISTENING.
Proof.
  intros Re Hm R Odd.
  pose proof (reachable_invariant s Re) as [[_ W2] _].
  pose proof (proj2 (reachable_bracket s Re)) as NW.
  destruct (Config.enabled (wakeword_config (va s))) eqn:En;
    [|exfalso; apply NW; [reflexivity|exact Hm]].
  destruct W2 as (d & D & _).
  unfold step. rewrite Hm. unfold _listen_for_wakeword_chunk.
  rewrite R, D. simpl. unfold WakeWordDetector.process_audio.
  rewrite (frombuffer_odd chunk Odd). simpl.
  unfold run_except, run_finally, shutdown. simpl. rewrite R. simpl.
  eexists. split; [reflexivity|]. simpl. repeat split; auto.
  rewrite <- app_assoc. reflexivity.
Qed.

Lemma run_loop_wake (a : t M) (now : Q) :
  snd (run_loop a now) = MainWake ->
  exists d,
    _wakeword_detector a = Some d /\
    _wakeword_detector (fst (run_loop a now)) = Some (WakeWordDetector.reset d) /\
    stdout (fst (run_loop a now)) = stdout a ++ [P_listening].
Proof.
  unfold run_loop, _listen_for_wakeword_enter.
  destruct (_running a); [|discriminate].
  destruct (Config.enabled (wakeword_config a)); [|discriminate].
  destruct (_wakeword_detector a) as [d|]; [|discriminate].
  intros _. exists d. simpl. auto.
Qed.

(** Every wake-listening phase starts from a reset detector: when an event
    takes [run] into wake listening, at its start or after a session, the
    detector it listens with is the previous one after [reset], with nothing
    pending and the classifier state cleared. *)
Theorem listening_starts_reset (s s' : system M) (ev : event) :
  step s ev = Some s' ->
  main s <> MainWake -> main s' = MainWake ->
  exists d,
    _wakeword_detector (va s) = Some d /\
    _wakeword_detector (va s') = Some (WakeWordDetector.reset d) /\
    WakeWordDetector._buffer (WakeWordDetector.reset d) = [] /\
    WakeWordDetector.model (WakeWordDetector.reset d) =
      Model.reset (WakeWordDetector.model d).
Proof.
  intros E Hm Hm'.
  assert (Loop : forall a now,
            (va s', main s') = run_loop a now ->
            _wakeword_detector a = _wakeword_detector (va s) ->
            exists d,
              _wakeword_detector (va s) = Some d /\
              _wakeword_detector (va s') = Some (WakeWordDetector.reset d) /\
              WakeWordDetector._buffer (WakeWordDetector.reset d) = [] /\
              WakeWordDetector.model (WakeWordDetector.reset d) =
                Model.reset (WakeWordDetector.model d)).
  { intros a now R Da.
    assert (W : snd (run_loop a now) = MainWake) by (rewrite <- R; exact Hm').
    destruct (run_loop_wake a now W) as (d & D & D' & _).
    exists d. rewrite <- Da. split; [exact D|].
    replace (va s') with (fst (run_loop a now)) by (rewrite <- R; reflexivity).
    split; [exact D'|]. split; reflexivity. }
  destruct (step_decompose s s' ev E)
    as [(pc & tev & pc' & T & Em)|[(Ea & Em)|[(now & _ & R)|[(chunk & now & Hw & R)
       |[(Hw & R)|[(e & Hw & R)|[(e & now & _ & R)|[(_ & _ & Em)|(_ & _ & err & Em)]]]]]]]];
    try congruence.
  - unfold run_enter in R.
    destruct (Config.enabled (wakeword_config (va s))).
    + destruct (_wakeword_detector (va s)) as [d|] eqn:D.
      * apply (Loop _ _ R). simpl. exact D.
      * injection R as _ R. congruence.
    + apply (Loop _ _ R). reflexivity.
  - unfold run_after_session in R.
    destruct (negb (Config.enabled (wakeword_config (_run_session_leave (va s) e)))).
    + injection R as _ R. congruence.
    + apply (Loop _ _ R). unfold _run_session_leave. destruct e; reflexivity.
Qed.

End RunBracket.

Section Pipelines.

Import VoiceAssistant Session.
Context {M : Type} `{Model.Classifier M}.

Lemma steps_app (evs1 evs2 : list event) (s : system M) :
  steps s (evs1 ++ evs2) =
    match steps s evs1 with
    | Some s1 => steps s1 evs2
    | None => None
    end.
Proof.
  revert s. induction evs1 as [|ev rest IH]; intros s; simpl; [reflexivity|].
  destruct (step s ev); [apply IH|reflexivity].
Qed.

Lemma play_parts_played (parts : list Live.Part) (p : Audio.AudioPlayer) :
  Audio.played (play_parts p parts) = Audio.played p ++ inline_audio parts.
Proof.
  revert p. induction parts as [|part rest IH]; intros p; simpl.
  - rewrite app_nil_r. reflexivity.
  - unfold inline_audio. simpl. fold (inline_audio rest).
    destruct (Live.inline_data part) as [data|]; rewrite IH; simpl;
      [rewrite <- app_assoc|]; reflexivity.
Qed.

Lemma on_response_effect (self : t M) (response : Live.Response) (now : Q) :
  _running (on_response self response now) = _running self /\
  (_state self <> LISTENING -> _state (on_response self response now) <> LISTENING) /\
  Audio.played (_player (on_response self response now)) =
    Audio.played (_player self) ++ response_audio response.
Proof.
  unfold on_response, response_audio.
  destruct (Live.server_content response) as [sc|]; simpl;
    [|rewrite app_nil_r; auto].
  destruct (Live.model_turn sc) as [parts|], (Live.turn_complete sc); simpl;
    rewrite ?play_parts_played, ?app_nil_r; repeat split; auto; discriminate.
Qed.

Lemma live_not_stopped (self : t M) :
  session_live self = true ->
  stop_seen self = false /\ _running self = true /\ _state self <> LISTENING.
Proof.
  unfold session_live, stop_seen. intros L.
  apply andb_prop in L as [R S]. rewrite R. simpl.
  apply negb_true_iff in S. rewrite S. repeat split.
  intros E. rewrite E in S. discriminate.
Qed.

(** Within a live session the audio of the server messages is played in the
    order of arrival, part by part, nothing dropped and nothing repeated:
    after the receive task has handled the messages, the player has played
    what it had played before followed by the inline audio of each message in
    turn, and the task is waiting for the next message. *)
Theorem audio_played_in_order (messages : list (Live.Response * Q))
    (self : t M) :
  session_live self = true ->
  exists self',
    task_steps self RecvWait (arrivals messages) = Some (self', RecvWait) /\
    Audio.played (_player self') =
      Audio.played (_player self) ++ flat_map response_audio (map fst messages) /\
    session_live self' = true.
Proof.
  revert self. induction messages as [|[response now] rest IH]; intros self L.
  - exists self. simpl. rewrite app_nil_r. auto.
  - destruct (live_not_stopped self L) as (St & R & NL).
    destruct (on_response_effect self response now) as (R' & NL' & Pl).
    destruct (IH (on_response self response now)) as (self' & Run & Pl' & L').
    { unfold session_live. rewrite R', R. simpl. apply negb_true_iff.
      destruct (_state (on_response self response now)) eqn:E; try reflexivity.
      exfalso. exact (NL' NL eq_refl). }
    exists self'. cbn [arrivals map task_steps fst snd task_step _receive_audio].
    rewrite St. fold (arrivals rest). split; [exact Run|]. split; [|exact L'].
    rewrite Pl', Pl. simpl. rewrite <- app_assoc. reflexivity.
Qed.

Lemma forwarding_round_steps (s : system M) (r : task) (chunk : list byte)
    (stamp now : Q) :
  current s = [SendWaitChunk; r; WdSleep] ->
  _running (va s) = true -> _state (va s) = ACTIVATED ->
  (now - stamp < Config.timeout (wakeword_config (va s)))%Q ->
  steps s (forwarding_round (chunk, stamp, now)) =
    Some (mkSystem (set_last_activity_time (va s) stamp) (main s)
                   [SendWaitChunk; r; WdSleep] (zombies s)).
Proof.
  destruct s as [a m cur zs]. cbn [va main current zombies].
  intros -> R A Lt.
  assert (St : stop_seen a = false).
  { unfold stop_seen. rewrite R, A. reflexivity. }
  assert (Q : Qle_bool (Config.timeout (wakeword_config a)) (now - stamp) = false).
  { destruct (Qle_bool _ _) eqn:E; [|reflexivity].
    apply Qle_bool_iff in E. lra. }
  unfold forwarding_round. cbn [steps].
  rewrite step_task. unfold resume_task. cbn -[step stop_seen].
  rewrite St. cbn -[step].
  rewrite step_task. unfold resume_task. cbn -[step].
  rewrite step_task. unfold resume_task. cbn -[step Qle_bool Qminus].
  unfold session_live. cbn -[Qle_bool Qminus]. rewrite A, R.
  cbn -[Qle_bool Qminus]. rewrite Q. reflexivity.
Qed.

(** Forwarding the microphone keeps the session open: as long as every
    wake-up of the timeout task comes less than the timeout after the last
    completed send, the state stays [ACTIVATED], whatever the number of
    rounds and however long the session has lasted; the timeout task never
    fires and nothing is printed. *)
Theorem forwarding_keeps_session_open
    (rounds : list (list byte * Q * Q)) (s : system M) (r : task) :
  current s = [SendWaitChunk; r; WdSleep] ->
  _running (va s) = true -> _state (va s) = ACTIVATED ->
  Forall (fun round =>
            (snd round - snd (fst round)
               < Config.timeout (wakeword_config (va s)))%Q) rounds ->
  exists s',
    steps s (flat_map forwarding_round rounds) = Some s' /\
    _state (va s') = ACTIVATED /\
    _running (va s') = true /\
    current s' = current s /\
    main s' = main s /\
    stdout (va s') = stdout (va s).
Proof.
  revert s. induction rounds as [|[[chunk stamp] now] rest IH];
    intros s Cur R A F.
  - exists s. simpl. repeat split; assumption.
  - inversion F as [|? ? Lt Frest]. subst. simpl in Lt.
    cbn [flat_map]. rewrite steps_app.
    rewrite (forwarding_round_steps s r chunk stamp now Cur R A Lt).
    destruct (IH (mkSystem (set_last_activity_time (va s) stamp) (main s)
                           [SendWaitChunk; r; WdSleep] (zombies s)))
      as (s' & Run & A' & R' & Cur' & Main' & Out');
      [reflexivity|exact R|exact A|exact Frest|].
    exists s'. rewrite Cur. cbn [va main current zombies] in *.
    split; [exact Run|]. split; [exact A'|]. split; [exact R'|].
    split; [exact Cur'|]. split; [exact Main'|exact Out'].
Qed.

(** Cooperative stop: with the state [LISTENING], resuming a task changes
    neither the state nor the running flag and plays nothing, and the task is
    finished afterwards, except a send in flight, which completes and
    finishes at its next resumption.  And a stopped assistant does not feed
    the next microphone chunk to the detector: wake listening returns and
    [run] ends. *)
Theorem stop_converges (self self' : t M) (pc pc' : task) (ev : task_event) :
  _state self = LISTENING ->
  task_step self pc ev = Some (self', pc') ->
  _state self' = LISTENING /\
  _running self' = _running self /\
  _player self' = _player self /\
  (task_pending pc' = true -> pc = SendWaitSend /\ pc' = SendWaitChunk) /\
  (pc = SendWaitChunk -> task_pending pc' = false) /\
  (forall chunk now,
     _running self = false ->
     _listen_for_wakeword_chunk self chunk now = (self, MainDone)).
Proof.
  intros L E.
  assert (Main : forall chunk now, _running self = false ->
                   _listen_for_wakeword_chunk self chunk now = (self, MainDone)).
  { intros chunk now R. unfold _listen_for_wakeword_chunk, run_finally, shutdown.
    rewrite R. reflexivity. }
  destruct self as [ac gc wc cap pl run st last det out]. simpl in L. subst st.
  unfold task_step, _send_audio, _receive_audio, _check_timeout, stop_seen,
    session_live in E; simpl in E.
  rewrite ?orb_true_r, ?andb_false_r in E.
  destruct pc, ev; try discriminate; simpl in E;
    try (destruct run; simpl in E);
    injection E as <- <-; simpl; repeat split; auto; discriminate.
Qed.

End Pipelines.

Section AssistantExtrasWitnesses.

Import VoiceAssistant Session Examples AssistantExamples.
Existing Instance calm_classifier.
Existing Instance hey_x_classifier.

Lemma detector_as_configured_witness :
  wakeword_config hey_x_assistant =
    or_default None Config.WakeWordConfig_default /\
  configured (wakeword_config hey_x_assistant)
    (va (after hey_x_assistant [ERun 0%Q; EWakeChunk (silence 2000) 1%Q])).
Proof.
  apply (detector_as_configured (Some "key"%string) None None None
           hey_x_assistant [ERun 0%Q; EWakeChunk (silence 2000) 1%Q]).
  - reflexivity.
  - vm_compute. reflexivity.
Defined.

Lemma run_leaves_assistant_stopped_witness :
  let s := after plain_assistant
             [ERun 0%Q; EConnectError (Exception "connection refused") 1%Q] in
  _running (va s) = false /\
  _state (va s) = LISTENING /\
  Audio.capture_started (_capture (va s)) = false /\
  Audio.player_started (_player (va s)) = false.
Proof.
  apply run_leaves_assistant_stopped.
  - apply after_reachable_plain. vm_compute. discriminate.
  - right. vm_compute. reflexivity.
Defined.

Lemma disabled_runs_one_session_witness :
  let s := after plain_assistant [ERun 0%Q] in
  let s' := after plain_assistant
              [ERun 0%Q; EConnectError (Exception "connection refused") 1%Q] in
  main s <> MainWake /\
  Config.enabled (wakeword_config (va s')) = false /\
  (main s' = main s \/
   (main s = MainIdle /\ main s' = MainConnect) \/
   (main s = MainConnect /\ (main s' = MainGather \/ main s' = MainDone)) \/
   (main s = MainGather /\ exists err, main s' = MainClosing err) \/
   ((exists err, main s = MainClosing err) /\ main s' = MainDone)).
Proof.
  apply (disabled_runs_one_session _ _
           (EConnectError (Exception "connection refused") 1%Q)).
  - apply after_reachable_plain. vm_compute. discriminate.
  - vm_compute. reflexivity.
  - vm_compute. reflexivity.
Defined.

(** A session that ends with [shutdown]: the three tasks finish, then
    [gather] returns. *)
Lemma gather_returns_in_listening_witness :
  let s := after plain_assistant
             [ERun 0%Q; EConnected;
              ETask false 1 TaskStart; ETask false 2 TaskStart;
              EShutdown;
              ETask false 0 MicEnd; ETask false 1 ReceiveEnd;
              ETask false 2 (Tick 1%Q)] in
  _state (va s) = LISTENING /\
  forallb task_finished (current s) = true /\
  first_exception (current s) = None.
Proof.
  intros s.
  apply (gather_returns_in_listening s
           (mkSystem (va s) (MainClosing None) (current s) (zombies s))).
  - apply after_reachable_plain. vm_compute. discriminate.
  - vm_compute. reflexivity.
  - reflexivity.
Defined.

Lemma malformed_chunk_ends_run_witness :
  let s := after hey_x_assistant [ERun 0%Q] in
  exists s',
    step s (EWakeChunk [x00] 1%Q) = Some s' /\
    main s' = MainDone /\
    stdout (va s') = stdout (va s) ++ [P_error frombuffer_error; P_shutting_down] /\
    _wakeword_detector (va s') = _wakeword_detector (va s) /\
    _running (va s') = false /\
    _state (va s') = LISTENING.
Proof.
  apply malformed_chunk_ends_run.
  - apply after_reachable_hey_x. vm_compute. discriminate.
  - vm_compute. reflexivity.
  - vm_compute. reflexivity.
  - reflexivity.
Defined.

Lemma audio_played_in_order_witness :
  let self := va (after plain_assistant [ERun 0%Q; EConnected]) in
  exists self',
    task_steps self RecvWait
      (arrivals [(audio_message, 1%Q); (audio_message, 2%Q)]) =
      Some (self', RecvWait) /\
    Audio.played (_player self') =
      Audio.played (_player self) ++
      flat_map response_audio (map fst [(audio_message, 1%Q); (audio_message, 2%Q)]) /\
    session_live self' = true.
Proof.
  apply audio_played_in_order. vm_compute. reflexivity.
Defined.

(** Timeout 30 s; the microphone is forwarded and the timeout task wakes a
    second after a send, at 30 s, 60 s and 90 s. *)
Lemma forwarding_keeps_session_open_witness :
  let s := after plain_assistant
             [ERun 0%Q; EConnected;
              ETask false 1 TaskStart; ETask false 2 TaskStart] in
  exists s',
    steps s (flat_map forwarding_round
               [(silence 2048, 29%Q, 30%Q);
                (silence 2048, 59%Q, 60%Q);
                (silence 2048, 89%Q, 90%Q)]) = Some s' /\
    _state (va s') = ACTIVATED /\
    _running (va s') = true /\
    current s' = current s /\
    main s' = main s /\
    stdout (va s') = stdout (va s).
Proof.
  intros s. apply (forwarding_keeps_session_open _ s RecvWait).
  - vm_compute. reflexivity.
  - vm_compute. reflexivity.
  - vm_compute. reflexivity.
  - repeat constructor.
Defined.

Lemma listening_starts_reset_witness :
  let s := boot hey_x_assistant in
  let s' := after hey_x_assistant [ERun 0%Q] in
  exists d,
    _wakeword_detector (va s) = Some d /\
    _wakeword_detector (va s') = Some (WakeWordDetector.reset d) /\
    WakeWordDetector._buffer (WakeWordDetector.reset d) = [] /\
    WakeWordDetector.model (WakeWordDetector.reset d) =
      Model.reset (WakeWordDetector.model d).
Proof.
  apply (listening_starts_reset _ _ (ERun 0%Q)).
  - vm_compute. reflexivity.
  - discriminate.
  - vm_compute. reflexivity.
Defined.

Lemma stop_converges_witness :
  let self := va (after plain_assistant [ERun 0%Q; EConnected; EShutdown]) in
  _state self = LISTENING /\
  _running self = _running self /\
  _player self = _player self /\
  (task_pending RecvFinished = true ->
   RecvWait = SendWaitSend /\ RecvFinished = SendWaitChunk) /\
  (RecvWait = SendWaitChunk -> task_pending RecvFinished = false) /\
  (forall chunk now,
     _running self = false ->
     _listen_for_wakeword_chunk self chunk now = (self, MainDone)).
Proof.
  intros self.
  apply (stop_converges self self RecvWait RecvFinished (ServerMsg audio_message 5%Q)).
  - vm_compute. reflexivity.
  - vm_compute. reflexivity.
Defined.

End AssistantExtrasWitnesses.
